(** * Pottery rib designer: the parametric mesh engine

    A shallow embedding of the geometry helpers, the vertex solver, the mesh
    builder and the volume statistic of the rib customizer script, with the
    properties of its specification stated and proved over that embedding.

    Numbers.  A JavaScript number is modelled as a real number: [+], [-],
    [*], [/] are exact, [Math.sqrt], [Math.sin], [Math.tan] and [Math.PI] are
    the real functions and constant, [Math.floor] is the integer part.
    Rounding to binary64 (and the binary32 storage of the position buffer) is
    not modelled there: a statement that the rounding of a last digit would
    decide is given with a margin, or, for the sharp profile at full blend,
    over [Binary64], where the edge profile evaluator is modelled again in
    binary64 arithmetic on the primitive floats.  Array indices and loop
    counters are [nat], [N] or [Z]. *)

From Stdlib Require Import Reals Lra Lia List ZArith NArith Bool.
From Stdlib Require Import Sorted Permutation.
From Stdlib Require Import QArith Qabs Qreals Qminmax.
From Stdlib Require Floats.PrimFloat.
From stdpp Require Import gmap.
Import ListNotations.

Local Open Scope R_scope.

(** ** Numeric helpers *)

(** [Math.floor]. *)
Definition Math_floor (x : R) : Z := Int_part x.

(** The comparisons [<=], [<] and [===] on numbers, as booleans. *)
Definition Rleb (a b : R) : bool := if Rle_dec a b then true else false.
Definition Rltb (a b : R) : bool := if Rlt_dec a b then true else false.
Definition Reqb (a b : R) : bool := if Req_dec_T a b then true else false.

(** [Math.min] of four arguments. *)
Definition Math_min4 (a b c d : R) : R := Rmin (Rmin (Rmin a b) c) d.

(** ** Enumerations read from the form controls

    The strings of the [select] controls.  A shape the [switch] of
    [getShapeModifier] has no case for behaves as [rectangular], and a profile
    the [switch] of [applyEdgeAngle] has no case for behaves as [straight]. *)

Inductive Shape :=
| Rectangular | Oval | Circle | Teardrop | Kidney | AsymmetricTeardrop | Custom.

Inductive EdgeProfile :=
| Straight | Sharp | Bevel | Miter | Rounded | CustomAngle | AsymmetricProfile.

(** The values ['all'], ['shaping'] and ['asymmetric'] that the solver
    compares [edgeThicknessApply] with, and any other value. *)
Inductive EdgeThicknessMode := ApplyAll | ApplyShaping | ApplyAsymmetric | ApplyOther.

Definition Shape_eqb (a b : Shape) : bool :=
  match a, b with
  | Rectangular, Rectangular | Oval, Oval | Circle, Circle
  | Teardrop, Teardrop | Kidney, Kidney
  | AsymmetricTeardrop, AsymmetricTeardrop | Custom, Custom => true
  | _, _ => false
  end.

(** ** Geometry helper functions *)

(** [getShapeModifier(t, s, shape)]: the [default] branch of the [switch]
    serves [rectangular] and [custom]. *)
Definition getShapeModifier (t s : R) (shape : Shape) : R :=
  match shape with
  | Oval => sqrt (Rmax 0 (1 - (2 * t - 1) ^ 2)) * 0.8 + 0.2
  | Circle => sqrt (Rmax 0 (1 - (2 * t - 1) ^ 2)) * 0.9 + 0.1
  | Teardrop => (1 - t) * 0.7 + 0.3
  | Kidney => 1 - Rabs (sin (t * PI)) * 0.4 * Rabs (s - 0.5) * 2
  | AsymmetricTeardrop =>
      let asymFactor := if Rltb s 0.5 then 0.8 else 1.2 in
      ((1 - t) * 0.7 + 0.3) * asymFactor
  | Rectangular | Custom => 1
  end.

(** [applyEdgeAngle(angleType, customAngle, thickness, angleEffect)]: a
    profile the [switch] has no case for ([asymmetric]) falls through with
    the initial [thickness / 2]. *)
Definition applyEdgeAngle (angleType : EdgeProfile) (customAngle thickness angleEffect : R) : R :=
  let topZ := thickness / 2 in
  match angleType with
  | Straight => topZ
  | Sharp => Rmax 0.1 (thickness / 2 * (1 - angleEffect * 0.95))
  | Bevel =>
      let bevelRad := (30 * PI) / 180 in
      let bevelReduction := tan bevelRad * (thickness * angleEffect * 0.5) in
      Rmax 0.1 (thickness / 2 - bevelReduction)
  | Miter =>
      let miterRad := (45 * PI) / 180 in
      let miterReduction := tan miterRad * (thickness * angleEffect * 0.5) in
      Rmax 0.1 (thickness / 2 - miterReduction)
  | Rounded =>
      let curveAmount := sin (angleEffect * PI / 2) in
      thickness / 2 * (1 - curveAmount * 0.9)
  | CustomAngle =>
      let customRad := (customAngle * PI) / 180 in
      let customReduction := tan customRad * (thickness * angleEffect * 0.5) in
      Rmax 0.1 (thickness / 2 - customReduction)
  | AsymmetricProfile => topZ
  end.

(** ** The edge profile evaluator in binary64

    The same function on binary64 numbers: the arithmetic operators round to
    nearest, and the literals are the nearest binary64 numbers.  [Math.sin]
    and [Math.tan], which the host approximates, are arguments. *)
Module Binary64.
Import PrimFloat.
Local Set Warnings "-inexact-float".
Local Open Scope float_scope.

(** [Math.max] of two arguments: [NaN] when an argument is [NaN], and [+0]
    is larger than [-0]. *)
Definition Math_max (a b : float) : float :=
  if is_nan a || is_nan b then nan
  else if a <? b then b
  else if b <? a then a
  else if get_sign a then b else a.

(** [Math.PI]. *)
Definition Math_PI : float := 3.141592653589793.

Section Host.
Variables Math_sin Math_tan : float -> float.

(** [applyEdgeAngle(angleType, customAngle, thickness, angleEffect)]. *)
Definition applyEdgeAngle (angleType : EdgeProfile)
    (customAngle thickness angleEffect : float) : float :=
  let topZ := thickness / 2 in
  match angleType with
  | Straight => topZ
  | Sharp => Math_max 0.1 (thickness / 2 * (1 - angleEffect * 0.95))
  | Bevel =>
      let bevelRad := (30 * Math_PI) / 180 in
      let bevelReduction := Math_tan bevelRad * (thickness * angleEffect * 0.5) in
      Math_max 0.1 (thickness / 2 - bevelReduction)
  | Miter =>
      let miterRad := (45 * Math_PI) / 180 in
      let miterReduction := Math_tan miterRad * (thickness * angleEffect * 0.5) in
      Math_max 0.1 (thickness / 2 - miterReduction)
  | Rounded =>
      let curveAmount := Math_sin (angleEffect * Math_PI / 2) in
      thickness / 2 * (1 - curveAmount * 0.9)
  | CustomAngle =>
      let customRad := (customAngle * Math_PI) / 180 in
      let customReduction := Math_tan customRad * (thickness * angleEffect * 0.5) in
      Math_max 0.1 (thickness / 2 - customReduction)
  | AsymmetricProfile => topZ
  end.
End Host.
End Binary64.

(** ** Mesh builder

    The vertex loop and the face loops of [createRibGeometry], over an
    arbitrary coordinate type: the index buffer depends on the positions only
    through [vertices.length]. *)

Definition segments : nat := 60.
Definition widthSegments : nat := 40.

(** An entry [{ top, bottom }] of [vertexGrid]. *)
Record GridCell := { top : N; bottom : N }.

Section MeshBuilder.
Context {A : Type}.

(** The object [{ y, topZ, bottomZ }] returned by the vertex solver. *)
Record VertexData := { vy : A; vtopZ : A; vbottomZ : A }.

(** Position along the length and solver output, by loop counters. *)
Variable xAt : nat -> A.
Variable vertexDataAt : nat -> nat -> VertexData.

(** Body of the inner loop: two [vertices.push] and one [row.push]. *)
Definition pushVertex (i : nat) (st : list A * list GridCell) (j : nat)
  : list A * list GridCell :=
  let '(vertices, row) := st in
  let x := xAt i in
  let vertexData := vertexDataAt i j in
  let topIdx := (N.of_nat (length vertices) / 3)%N in
  (vertices ++ [x; vy vertexData; vtopZ vertexData]
            ++ [x; vy vertexData; vbottomZ vertexData],
   row ++ [{| top := topIdx; bottom := (topIdx + 1)%N |}]).

(** Body of the outer loop: one row of the grid. *)
Definition pushRow (st : list A * list (list GridCell)) (i : nat)
  : list A * list (list GridCell) :=
  let '(vertices, vertexGrid) := st in
  let '(vertices', row) :=
    fold_left (pushVertex i) (seq 0 (S widthSegments)) (vertices, []) in
  (vertices', vertexGrid ++ [row]).

Definition generateVertices : list A * list (list GridCell) :=
  fold_left pushRow (seq 0 (S segments)) ([], []).

(** The six numbers pushed for grid point [(i, j)], and the whole buffer the
    loops build, in closed form. *)
Definition vertexNumbers (i j : nat) : list A :=
  let x := xAt i in
  let vertexData := vertexDataAt i j in
  [x; vy vertexData; vtopZ vertexData; x; vy vertexData; vbottomZ vertexData].

Definition vertexBuffer : list A :=
  flat_map (fun i => flat_map (vertexNumbers i) (seq 0 (S widthSegments)))
           (seq 0 (S segments)).
End MeshBuilder.

Arguments VertexData : clear implicits.

(** [vertexGrid[i][j]]; [None] where JavaScript reads [undefined]. *)
Definition gridAt (vertexGrid : list (list GridCell)) (i j : nat) : option GridCell :=
  match nth_error vertexGrid i with
  | Some row => nth_error row j
  | None => None
  end.

(** The faces of one grid cell: two triangles on the top surface, two on
    the bottom surface with reversed winding. *)
Definition capFaces (g : list (list GridCell)) (i j : nat) : option (list N) :=
  match gridAt g i j, gridAt g (i + 1) j, gridAt g (i + 1) (j + 1), gridAt g i (j + 1) with
  | Some v00, Some v10, Some v11, Some v01 =>
      Some [top v00; top v10; top v11;
            top v00; top v11; top v01;
            bottom v00; bottom v11; bottom v10;
            bottom v00; bottom v01; bottom v11]
  | _, _, _, _ => None
  end.

(** Left and right walls at length step [i]. *)
Definition sideFaces (g : list (list GridCell)) (i : nat) : option (list N) :=
  match gridAt g i 0, gridAt g (i + 1) 0,
        gridAt g i widthSegments, gridAt g (i + 1) widthSegments with
  | Some v0, Some v1, Some v0r, Some v1r =>
      Some [top v0; bottom v0; bottom v1;
            top v0; bottom v1; top v1;
            top v0r; top v1r; bottom v1r;
            top v0r; bottom v1r; bottom v0r]
  | _, _, _, _ => None
  end.

(** Front and back walls at width step [j]. *)
Definition endFaces (g : list (list GridCell)) (j : nat) : option (list N) :=
  match gridAt g 0 j, gridAt g 0 (j + 1),
        gridAt g segments j, gridAt g segments (j + 1) with
  | Some v0, Some v1, Some v0b, Some v1b =>
      Some [top v0; top v1; bottom v1;
            top v0; bottom v1; bottom v0;
            top v0b; bottom v0b; bottom v1b;
            top v0b; bottom v1b; top v1b]
  | _, _, _, _ => None
  end.

(** Run a loop body over its counters and concatenate what it pushes; the
    loop stops with [None] at the first body that throws. *)
Fixpoint pushAll (body : nat -> option (list N)) (counters : list nat) : option (list N) :=
  match counters with
  | [] => Some []
  | c :: rest =>
      match body c, pushAll body rest with
      | Some l, Some ls => Some (l ++ ls)
      | _, _ => None
      end
  end.

(** The three face loops, in the order of the source. *)
Definition generateIndices (g : list (list GridCell)) : option (list N) :=
  match pushAll (fun i => pushAll (capFaces g i) (seq 0 widthSegments)) (seq 0 segments),
        pushAll (sideFaces g) (seq 0 segments),
        pushAll (endFaces g) (seq 0 widthSegments) with
  | Some caps, Some sides, Some ends => Some (caps ++ sides ++ ends)
  | _, _, _ => None
  end.

(** ** Curve smoother *)

(** A point [{ x, y }] of the drawing. *)
Record Point := { px : R; py : R }.

(** [array[k]] for an integral number [k]; [None] is [undefined]. *)
Definition arrayAt {A : Type} (l : list A) (k : Z) : option A :=
  if (k <? 0)%Z then None else nth_error l (Z.to_nat k).

(** [[...points].sort((a, b) => a.x - b.x)]: the sort is stable, a point
    goes in front of the first point whose [x] is not smaller. *)
Fixpoint insertByX (p : Point) (l : list Point) : list Point :=
  match l with
  | [] => [p]
  | q :: l' => if Rleb (px p) (px q) then p :: q :: l' else q :: insertByX p l'
  end.

Definition sortByX (points : list Point) : list Point :=
  fold_right insertByX [] points.

(** One turn of the resampling loop of [smoothCurvePoints]; reading [.y] of
    an [undefined] array element throws, which is [None]. *)
Definition smoothSample (sorted : list Point) (tension : R) (i : nat) : option Point :=
  let resolution := 100%nat in
  let len := Z.of_nat (length sorted) in
  let t := INR i / (INR resolution - 1) in
  let index := Math_floor (t * (IZR len - 1)) in
  let nextIndex := Z.min (index + 1) (len - 1) in
  let localT := (t * (IZR len - 1)) - IZR index in
  p0 ← arrayAt sorted (Z.max 0 (index - 1));
  p1 ← arrayAt sorted index;
  p2 ← arrayAt sorted nextIndex;
  p3 ← arrayAt sorted (Z.min (len - 1) (nextIndex + 1));
  let y := 0.5 * (
    (2 * py p1) +
    (- py p0 + py p2) * localT * tension +
    (2 * py p0 - 5 * py p1 + 4 * py p2 - py p3) * localT * localT * tension +
    (- py p0 + 3 * py p1 - 3 * py p2 + py p3) * localT * localT * localT * tension) in
  Some {| px := t; py := Rmax 0 (Rmin 1 y) |}.

(** [smoothCurvePoints(points, smoothingFactor)]. *)
Definition smoothCurvePoints (points : list Point) (smoothingFactor : R)
  : option (list Point) :=
  if (length points <? 3)%nat then Some points
  else
    let sorted := sortByX points in
    let resolution := 100%nat in
    let tension := smoothingFactor / 100 in
    mapM (smoothSample sorted tension) (seq 0 resolution).

(** ** Vertex solver *)

(** The object built by [getGeometryParameters].  The per-edge thickness and
    profile fields are [null] outside asymmetric mode, where they are never
    read; here they always carry a value. *)
Record RibParameters := {
  ribLength : R;                       (* [length] *)
  width : R;
  thickness : R;
  edgeThickness : R;
  edgeThicknessApply : EdgeThicknessMode;
  edgeTop : R;
  edgeBottom : R;
  edgeLeft : R;
  edgeRight : R;
  shape : Shape;
  angleType : EdgeProfile;
  angleTop : EdgeProfile;
  angleBottom : EdgeProfile;
  angleLeft : EdgeProfile;
  angleRight : EdgeProfile;
  customAngle : R;
  edgeDepth : R;
  applyAllEdges : bool;
  longitudinalCurve : R
}.

(** [calculateVertexPosition(x, s, t, params, smoothedCurve, widthSegments,
    curveOffset)]. *)
Definition calculateVertexPosition (x s t : R) (params : RibParameters)
    (smoothedCurve : option (list Point)) (widthSegments : nat) (curveOffset : R)
  : VertexData R :=
  let y := (s - 0.5) * width params in
  let shapeModifier :=
    match smoothedCurve with
    | Some curve =>
        let len := Z.of_nat (length curve) in
        let pointIndex := Math_floor (t * (IZR len - 1)) in
        match arrayAt curve (Z.min pointIndex (len - 1)) with
        | Some point =>
            let curveInfluence := s in
            let centerY := 0.5 in
            let curveModifier := 1 - Rabs (py point - centerY) * 1.5 in
            let clampedModifier := Rmax 0.1 (Rmin 1 curveModifier) in
            1.0 * (1 - curveInfluence) + clampedModifier * curveInfluence
        | None => 1
        end
    | None => getShapeModifier t s (shape params)
    end in
  let y := y * shapeModifier in
  let actualWidth := width params * Rabs shapeModifier in
  let actualLength := ribLength params in
  let distFromTop := actualWidth * (1 - s) in
  let distFromBottom := actualWidth * s in
  let distFromLeft := actualLength * t in
  let distFromRight := actualLength * (1 - t) in
  let minDistToEdge := Math_min4 distFromTop distFromBottom distFromLeft distFromRight in
  let isNearTop := Reqb distFromTop minDistToEdge in
  let isNearBottom := Reqb distFromBottom minDistToEdge in
  let isNearLeft := Reqb distFromLeft minDistToEdge in
  let isNearRight := Reqb distFromRight minDistToEdge in
  let isShapingEdge := isNearTop in
  let targetEdgeThickness :=
    match edgeThicknessApply params with
    | ApplyAsymmetric =>
        if isNearTop then edgeTop params
        else if isNearBottom then edgeBottom params
        else if isNearLeft then edgeLeft params
        else if isNearRight then edgeRight params
        else edgeThickness params
    | _ => edgeThickness params
    end in
  let currentThickness :=
    if Rleb minDistToEdge (edgeDepth params) then
      let edgeProgress := minDistToEdge / edgeDepth params in
      let shouldApplyEdgeThickness :=
        match edgeThicknessApply params with
        | ApplyAll | ApplyAsymmetric => true
        | ApplyShaping => isShapingEdge
        | ApplyOther => false
        end in
      if shouldApplyEdgeThickness
      then targetEdgeThickness * (1 - edgeProgress) + thickness params * edgeProgress
      else thickness params
    else thickness params in
  let topZ := currentThickness / 2 + curveOffset in
  let bottomZ := - currentThickness / 2 - curveOffset in
  let topZ :=
    if Rleb minDistToEdge (edgeDepth params) then
      let edgeProgress := minDistToEdge / edgeDepth params in
      let shouldApplyAngle :=
        applyAllEdges params
        || Shape_eqb (shape params) Oval
        || Shape_eqb (shape params) Custom
        || isNearTop
        || Reqb distFromBottom minDistToEdge
        || Rleb distFromLeft (edgeDepth params)
        || Rleb distFromRight (edgeDepth params) in
      if shouldApplyAngle then
        let angleEffect := 1 - edgeProgress in
        let edgeAngleType :=
          match angleType params with
          | AsymmetricProfile =>
              if isNearTop then angleTop params
              else if isNearBottom then angleBottom params
              else if isNearLeft then angleLeft params
              else if isNearRight then angleRight params
              else AsymmetricProfile
          | a => a
          end in
        let topZ :=
          applyEdgeAngle edgeAngleType (customAngle params) currentThickness angleEffect
          + curveOffset in
        topZ * angleEffect + ((currentThickness / 2) + curveOffset) * (1 - angleEffect)
      else topZ
    else topZ in
  {| vy := y; vtopZ := topZ; vbottomZ := bottomZ |}.

(** ** Mesh generation and volume statistic *)

(** The geometry: the [position] attribute and the index buffer. *)
Record Geometry := { positions : list R; indices : list N }.

(** [createRibGeometry()], with what it reads from the page as arguments:
    the parameter object, the drawn points and the smoothing amount. *)
Definition createRibGeometry (params : RibParameters)
    (customCurvePoints : list Point) (smoothingFactor : R) : option Geometry :=
  smoothedCurve ←
    (if Shape_eqb (shape params) Custom && (0 <? length customCurvePoints)%nat
     then Some <$> smoothCurvePoints customCurvePoints smoothingFactor
     else Some None);
  let tAt (i : nat) := INR i / INR segments in
  let xAt (i : nat) := (tAt i - 0.5) * ribLength params in
  let vertexDataAt (i j : nat) :=
    let t := tAt i in
    let x := xAt i in
    let longitudinalCurve := longitudinalCurve params / 100 in
    let curveOffset := sin (t * PI) * thickness params * longitudinalCurve * 3 in
    let s := INR j / INR widthSegments in
    calculateVertexPosition x s t params smoothedCurve widthSegments curveOffset in
  let '(vertices, vertexGrid) := generateVertices xAt vertexDataAt in
  indices ← generateIndices vertexGrid;
  Some {| positions := vertices; indices := indices |}.

(** [positions[k]]; [None] is [undefined]. *)
Definition positionAt (positions : list R) (k : N) : option R :=
  nth_error positions (N.to_nat k).

(** The volume loop of [updateStatistics]: [volume] is the accumulator, one
    turn per three indices.  An [undefined] read makes the sum [NaN], which
    is [None]. *)
Fixpoint volumeLoop (positions : list R) (indices : list N) (volume : R) : option R :=
  match indices with
  | [] => Some volume
  | a :: b :: c :: rest =>
      let i1 := (a * 3)%N in
      let i2 := (b * 3)%N in
      let i3 := (c * 3)%N in
      v1x ← positionAt positions i1;
      v1y ← positionAt positions (i1 + 1);
      v1z ← positionAt positions (i1 + 2);
      v2x ← positionAt positions i2;
      v2y ← positionAt positions (i2 + 1);
      v2z ← positionAt positions (i2 + 2);
      v3x ← positionAt positions i3;
      v3y ← positionAt positions (i3 + 1);
      v3z ← positionAt positions (i3 + 2);
      volumeLoop positions rest
        (volume + Rabs (v1x * (v2y * v3z - v2z * v3y) +
                        v2x * (v3y * v1z - v3z * v1y) +
                        v3x * (v1y * v2z - v1z * v2y)) / 6)
  | _ => None
  end.

(** The volume in cm3 that [updateStatistics] displays. *)
Definition computedVolume (geometry : Geometry) : option R :=
  volume ← volumeLoop (positions geometry) (indices geometry) 0;
  Some (Rabs volume / 1000).

(** ** Parameter records in the statements *)

(** The same parameter object with another [applyAllEdges]. *)
Definition withApplyAllEdges (b : bool) (p : RibParameters) : RibParameters :=
  {| ribLength := ribLength p; width := width p; thickness := thickness p;
     edgeThickness := edgeThickness p; edgeThicknessApply := edgeThicknessApply p;
     edgeTop := edgeTop p; edgeBottom := edgeBottom p;
     edgeLeft := edgeLeft p; edgeRight := edgeRight p;
     shape := shape p;
     angleType := angleType p;
     angleTop := angleTop p; angleBottom := angleBottom p;
     angleLeft := angleLeft p; angleRight := angleRight p;
     customAngle := customAngle p;
     edgeDepth := edgeDepth p; applyAllEdges := b;
     longitudinalCurve := longitudinalCurve p |}.

(** Two parameter objects that agree on every field but [applyAllEdges]. *)
Definition differOnlyInApplyAllEdges (p q : RibParameters) : Prop :=
  withApplyAllEdges true p = withApplyAllEdges true q.

(** The ranges of the numeric controls: length 50-200 mm, width 30-100 mm,
    thickness 3-12 mm, edge thickness 0.1-12 mm, edge depth 3-30 mm, curve
    0-100 %. *)
Definition validRibParameters (p : RibParameters) : Prop :=
  50 <= ribLength p <= 200 /\
  30 <= width p <= 100 /\
  3 <= thickness p <= 12 /\
  0.1 <= edgeThickness p <= 12 /\
  3 <= edgeDepth p <= 30 /\
  0 <= longitudinalCurve p <= 100.

(** The bow of the outer loop of [createRibGeometry] at length fraction [t]. *)
Definition bowOffset (params : RibParameters) (t : R) : R :=
  let longitudinalCurve := longitudinalCurve params / 100 in
  sin (t * PI) * thickness params * longitudinalCurve * 3.

(** ** Closed 2-manifolds *)

(** The triangles of a flat index buffer, three indices each. *)
Fixpoint triangles (indices : list N) : list (N * N * N) :=
  match indices with
  | a :: b :: c :: rest => (a, b, c) :: triangles rest
  | _ => []
  end.

(** The undirected edge [{u, v}] is the undirected edge [{a, b}]. *)
Definition sameEdge (u v a b : N) : bool :=
  ((u =? a) && (v =? b) || (u =? b) && (v =? a))%N.

(** The undirected edge [{u, v}] is a side of the triangle. *)
Definition hasEdge (u v : N) (tri : N * N * N) : bool :=
  let '(a, b, c) := tri in
  sameEdge u v a b || sameEdge u v b c || sameEdge u v c a.

(** The number of triangles that share the undirected edge [{u, v}]. *)
Definition trianglesSharing (u v : N) (tris : list (N * N * N)) : nat :=
  length (List.filter (hasEdge u v) tris).

(** The index buffer is a closed 2-manifold: it is made of whole triangles
    with three different corners, and each side of each triangle is shared by
    exactly two triangles of the buffer. *)
Definition closedManifold (indices : list N) : Prop :=
  (length indices mod 3 = 0)%nat /\
  forall a b c, In (a, b, c) (triangles indices) ->
    (a <> b /\ b <> c /\ c <> a) /\
    trianglesSharing a b (triangles indices) = 2%nat /\
    trianglesSharing b c (triangles indices) = 2%nat /\
    trianglesSharing c a (triangles indices) = 2%nat.

(** A checker for [closedManifold] by edge-adjacency count: the sides of all
    triangles, each put in ascending order, are counted in a finite map. *)
Definition edgeKey (u v : N) : N * N :=
  if (u <=? v)%N then (u, v) else (v, u).

Definition triEdges (tri : N * N * N) : list (N * N) :=
  let '(a, b, c) := tri in [edgeKey a b; edgeKey b c; edgeKey c a].

Definition countEdges (es : list (N * N)) : gmap (N * N) nat :=
  fold_right (fun e m => <[ e := S (default 0%nat (m !! e)) ]> m) ∅ es.

Definition properTriangle (tri : N * N * N) : bool :=
  let '(a, b, c) := tri in
  (negb (a =? b) && negb (b =? c) && negb (c =? a))%N.

Definition manifoldb (indices : list N) : bool :=
  let tris := triangles indices in
  let es := flat_map triEdges tris in
  let m := countEdges es in
  (length indices mod 3 =? 0)%nat
  && forallb properTriangle tris
  && forallb (fun e => match m !! e with Some 2%nat => true | _ => false end) es.

(** The grid that the vertex loop builds, in closed form: the vertex pushed
    as number [q] has the top index [2 q] and the bottom index [2 q + 1]. *)
Definition cellOf (q : nat) : GridCell :=
  {| top := N.of_nat (2 * q); bottom := (N.of_nat (2 * q) + 1)%N |}.

Definition ribGrid : list (list GridCell) :=
  map (fun i => map cellOf (seq (i * S widthSegments) (S widthSegments)))
      (seq 0 (S segments)).

(** ** Exact evaluation of flat ribs

    For a rectangular rib with the straight profile, the edge thickness
    applied to all edges and no bow, the solver and the volume loop use only
    rational operations on rational inputs.  The functions below compute the
    same numbers in [Q] and serve to evaluate the mesh of such a rib; that
    they agree with the solver, the position buffer and the volume loop is
    proved below ([vertexDataAt_Q2R], [vertexAt_positionAt],
    [flat_rib_volume]). *)
Module Rational.
Local Open Scope Q_scope.

Section FlatRib.
(** [length], [width], [thickness], [edgeThickness], [edgeDepth]. *)
Variables L W th eT eD : Q.

Definition tAt (i : nat) : Q := Z.of_nat i # Pos.of_nat segments.
Definition sAt (j : nat) : Q := Z.of_nat j # Pos.of_nat widthSegments.

Definition xAt (i : nat) : Q := Qred ((tAt i - (1 # 2)) * L).

Definition minDistToEdge (i j : nat) : Q :=
  let s := sAt j in
  let t := tAt i in
  Qmin (Qmin (Qmin (W * (1 - s)) (W * s)) (L * t)) (L * (1 - t)).

Definition currentThickness (i j : nat) : Q :=
  let d := minDistToEdge i j in
  if Qle_bool d eD then eT * (1 - d / eD) + th * (d / eD) else th.

Definition vertexDataAt (i j : nat) : VertexData Q :=
  {| vy := Qred ((sAt j - (1 # 2)) * W);
     vtopZ := Qred (currentThickness i j / 2);
     vbottomZ := Qred (- currentThickness i j / 2) |}.
End FlatRib.

(** The solver output at every grid point, row by row. *)
Definition vertexRows (L W th eT eD : Q) : list (list (Q * VertexData Q)) :=
  map (fun i => map (fun j => (xAt L i, vertexDataAt L W th eT eD i j))
                    (seq 0 (S widthSegments)))
      (seq 0 (S segments)).

(** The coordinates of vertex number [q]: grid point number [q / 2], counted
    row by row, on the top surface when [q] is even and on the bottom surface
    when it is odd. *)
Definition vertexAt (rows : list (list (Q * VertexData Q))) (q : N) : option (Q * Q * Q) :=
  let n := (q / 2)%N in
  let i := N.to_nat (n / N.of_nat (S widthSegments)) in
  let j := N.to_nat (n mod N.of_nat (S widthSegments)) in
  match nth_error rows i with
  | Some row =>
      match nth_error row j with
      | Some (x, d) => Some (x, vy d, if N.even q then vtopZ d else vbottomZ d)
      | None => None
      end
  | None => None
  end.

Fixpoint volumeLoop (rows : list (list (Q * VertexData Q))) (indices : list N) (volume : Q)
  : option Q :=
  match indices with
  | [] => Some volume
  | a :: b :: c :: rest =>
      match vertexAt rows a, vertexAt rows b, vertexAt rows c with
      | Some (v1x, v1y, v1z), Some (v2x, v2y, v2z), Some (v3x, v3y, v3z) =>
          volumeLoop rows rest
            (Qred (volume + Qabs (v1x * (v2y * v3z - v2z * v3y) +
                                  v2x * (v3y * v1z - v3z * v1y) +
                                  v3x * (v1y * v2z - v1z * v2y)) / 6))
      | _, _, _ => None
      end
  | _ => None
  end.

(** The statistic for given rows and the outcome of the face loops. *)
Definition volumeOf (rows : list (list (Q * VertexData Q))) (indices : option (list N))
  : option Q :=
  match indices with
  | Some indices =>
      match volumeLoop rows indices 0 with
      | Some volume => Some (Qred (Qabs volume / 1000))
      | None => None
      end
  | None => None
  end.
End Rational.

(** The solver output with its numbers mapped. *)
Definition mapVertexData {A B : Type} (f : A -> B) (d : VertexData A) : VertexData B :=
  {| vy := f (vy d); vtopZ := f (vtopZ d); vbottomZ := f (vbottomZ d) |}.

(** A rib is flat when it is rectangular, has the straight profile, applies
    the edge thickness to all edges and has no bow. *)
Definition flatRib (p : RibParameters) : Prop :=
  shape p = Rectangular /\ angleType p = Straight /\
  edgeThicknessApply p = ApplyAll /\ longitudinalCurve p = 0.

(** The scenario of the specification: 100 x 60 x 6 mm, rectangular, edge
    thickness 6 mm on all edges, straight profile, edge depth 10 mm, no bow. *)
Definition scenarioParameters : RibParameters :=
  {| ribLength := 100; width := 60; thickness := 6;
     edgeThickness := 6; edgeThicknessApply := ApplyAll;
     edgeTop := 6; edgeBottom := 6; edgeLeft := 6; edgeRight := 6;
     shape := Rectangular;
     angleType := Straight;
     angleTop := Miter; angleBottom := Miter; angleLeft := Miter; angleRight := Miter;
     customAngle := 45;
     edgeDepth := 10; applyAllEdges := false;
     longitudinalCurve := 0 |}.

(** A small rib whose 12 mm edge is thicker than its body: 50 x 30 mm,
    rectangular, straight profile, edge depth 3 mm, no bow. *)
Definition thickEdgeParameters (thickness : R) : RibParameters :=
  {| ribLength := 50; width := 30; thickness := thickness;
     edgeThickness := 12; edgeThicknessApply := ApplyAll;
     edgeTop := 6; edgeBottom := 6; edgeLeft := 6; edgeRight := 6;
     shape := Rectangular;
     angleType := Straight;
     angleTop := Miter; angleBottom := Miter; angleLeft := Miter; angleRight := Miter;
     customAngle := 45;
     edgeDepth := 3; applyAllEdges := false;
     longitudinalCurve := 0 |}.

(** A kidney-shaped rib with per-edge thicknesses and profiles. *)
Definition perEdgeParameters : RibParameters :=
  {| ribLength := 110; width := 80; thickness := 6;
     edgeThickness := 3; edgeThicknessApply := ApplyAsymmetric;
     edgeTop := 1; edgeBottom := 2; edgeLeft := 3; edgeRight := 4;
     shape := Kidney;
     angleType := AsymmetricProfile;
     angleTop := Sharp; angleBottom := Rounded; angleLeft := Bevel; angleRight := CustomAngle;
     customAngle := 60;
     edgeDepth := 10; applyAllEdges := false;
     longitudinalCurve := 25 |}.

(** ** Oriented surfaces *)

(** The triangle runs through the directed edge from [u] to [v]. *)
Definition hasDirectedEdge (u v : N) (tri : N * N * N) : bool :=
  let '(a, b, c) := tri in
  ((u =? a) && (v =? b) || (u =? b) && (v =? c) || (u =? c) && (v =? a))%N.

(** The number of triangles that run from [u] to [v]. *)
Definition trianglesTraversing (u v : N) (tris : list (N * N * N)) : nat :=
  length (List.filter (hasDirectedEdge u v) tris).

(** The windings agree: each side of each triangle is run through once in
    its own direction (by that triangle) and once in the opposite direction
    (by the neighbour). *)
Definition consistentlyOriented (indices : list N) : Prop :=
  forall a b c, In (a, b, c) (triangles indices) ->
    forall u v, In (u, v) [(a, b); (b, c); (c, a)] ->
      trianglesTraversing u v (triangles indices) = 1%nat /\
      trianglesTraversing v u (triangles indices) = 1%nat.

Definition triDirected (tri : N * N * N) : list (N * N) :=
  let '(a, b, c) := tri in [(a, b); (b, c); (c, a)].

(** A checker for [consistentlyOriented], counting the directed sides. *)
Definition orientedb (indices : list N) : bool :=
  let tris := triangles indices in
  let es := flat_map triDirected tris in
  let m := countEdges es in
  forallb properTriangle tris
  && forallb (fun e => match m !! e, m !! (snd e, fst e) with
                       | Some 1%nat, Some 1%nat => true
                       | _, _ => false
                       end) es.

(** The sizes of the generated buffers: two vertices per grid point. *)
Definition vertexCount : N := N.of_nat (2 * (S segments * S widthSegments)).
Definition triangleCount : N :=
  N.of_nat (4 * (segments * widthSegments) + 4 * segments + 4 * widthSegments).

(** Every index of the buffer refers to one of the first [n] vertices. *)
Definition indicesBelow (n : N) (indices : list N) : bool :=
  forallb (fun k => (k <? n)%N) indices.

(** ** Parameter validation *)

(** [validateParameters(params)]: which of the two warnings it shows (the
    [show] class of the two warning elements). *)
Record Warnings := { edgeWarning : bool; depthWarning : bool }.

Definition validateParameters (params : RibParameters) : Warnings :=
  {| edgeWarning := Rltb (edgeThickness params) 0.5;
     depthWarning :=
       Rltb (width params / 2) (edgeDepth params)
       || Rltb (ribLength params / 2) (edgeDepth params) |}.

(** Two parameter objects that agree on everything but the edge profile
    settings ([angleType], the per-edge profiles, [customAngle] and
    [applyAllEdges]). *)
Definition sameBody (p q : RibParameters) : Prop :=
  ribLength p = ribLength q /\ width p = width q /\ thickness p = thickness q /\
  edgeThickness p = edgeThickness q /\
  edgeThicknessApply p = edgeThicknessApply q /\
  edgeTop p = edgeTop q /\ edgeBottom p = edgeBottom q /\
  edgeLeft p = edgeLeft q /\ edgeRight p = edgeRight q /\
  shape p = shape q /\ edgeDepth p = edgeDepth q /\
  longitudinalCurve p = longitudinalCurve q.

(** ** Order of the drawn points *)

(** The points are in ascending order of [x]. *)
Definition sortedByX (points : list Point) : Prop :=
  StronglySorted (fun a b => px a <= px b) points.

(** [Math.max(0, Math.min(1, y))]. *)
Definition clampUnit (y : R) : R := Rmax 0 (Rmin 1 y).

(** ** Uniform edge settings *)

(** The same parameter object with another [angleType]. *)
Definition withAngleType (e : EdgeProfile) (p : RibParameters) : RibParameters :=
  {| ribLength := ribLength p; width := width p; thickness := thickness p;
     edgeThickness := edgeThickness p; edgeThicknessApply := edgeThicknessApply p;
     edgeTop := edgeTop p; edgeBottom := edgeBottom p;
     edgeLeft := edgeLeft p; edgeRight := edgeRight p;
     shape := shape p;
     angleType := e;
     angleTop := angleTop p; angleBottom := angleBottom p;
     angleLeft := angleLeft p; angleRight := angleRight p;
     customAngle := customAngle p;
     edgeDepth := edgeDepth p; applyAllEdges := applyAllEdges p;
     longitudinalCurve := longitudinalCurve p |}.

(** The same parameter object with the edge thickness [eT] applied to all
    edges. *)
Definition withEdgeThickness (eT : R) (p : RibParameters) : RibParameters :=
  {| ribLength := ribLength p; width := width p; thickness := thickness p;
     edgeThickness := eT; edgeThicknessApply := ApplyAll;
     edgeTop := edgeTop p; edgeBottom := edgeBottom p;
     edgeLeft := edgeLeft p; edgeRight := edgeRight p;
     shape := shape p;
     angleType := angleType p;
     angleTop := angleTop p; angleBottom := angleBottom p;
     angleLeft := angleLeft p; angleRight := angleRight p;
     customAngle := customAngle p;
     edgeDepth := edgeDepth p; applyAllEdges := applyAllEdges p;
     longitudinalCurve := longitudinalCurve p |}.

(** A kidney-shaped rib in per-edge mode whose four edges have the same
    thickness and the same profile. *)
Definition uniformEdgeParameters : RibParameters :=
  {| ribLength := 110; width := 80; thickness := 6;
     edgeThickness := 3; edgeThicknessApply := ApplyAsymmetric;
     edgeTop := 2; edgeBottom := 2; edgeLeft := 2; edgeRight := 2;
     shape := Kidney;
     angleType := AsymmetricProfile;
     angleTop := Rounded; angleBottom := Rounded;
     angleLeft := Rounded; angleRight := Rounded;
     customAngle := 45;
     edgeDepth := 10; applyAllEdges := false;
     longitudinalCurve := 0 |}.

(** ** Drawing canvas

    The state behind the drawing canvas and the handlers that change it.
    What the handlers paint on the canvas is left out; the point of a mouse
    event is the [{ x, y }] the handler computes from it. *)
Module Drawing.

Record State := {
  customCurvePoints : list Point;
  drawingHistory : list Point;
  isDrawing : bool
}.

(** The state when the script has loaded. *)
Definition initial : State :=
  {| customCurvePoints := []; drawingHistory := []; isDrawing := false |}.

(** The [mousedown] listener. *)
Definition mousedown (point : Point) (st : State) : State :=
  {| isDrawing := true;
     drawingHistory := customCurvePoints st;
     customCurvePoints := customCurvePoints st ++ [point] |}.

(** The [mousemove] listener. *)
Definition mousemove (point : Point) (st : State) : State :=
  if negb (isDrawing st) then st
  else {| isDrawing := isDrawing st;
          drawingHistory := drawingHistory st;
          customCurvePoints := customCurvePoints st ++ [point] |}.

(** The [mouseup] listener. *)
Definition mouseup (st : State) : State :=
  {| isDrawing := false;
     drawingHistory := drawingHistory st;
     customCurvePoints := customCurvePoints st |}.

(** [clearDrawing()]. *)
Definition clearDrawing (st : State) : State :=
  {| isDrawing := isDrawing st; drawingHistory := []; customCurvePoints := [] |}.

(** [undoDrawing()]. *)
Definition undoDrawing (st : State) : State :=
  if (0 <? length (drawingHistory st))%nat
  then {| isDrawing := isDrawing st;
          drawingHistory := drawingHistory st;
          customCurvePoints := drawingHistory st |}
  else st.

(** What can happen to the canvas. *)
Inductive Event :=
| MouseDown (point : Point)
| MouseMove (point : Point)
| MouseUp
| ClearDrawing
| UndoDrawing.

Definition handle (st : State) (ev : Event) : State :=
  match ev with
  | MouseDown point => mousedown point st
  | MouseMove point => mousemove point st
  | MouseUp => mouseup st
  | ClearDrawing => clearDrawing st
  | UndoDrawing => undoDrawing st
  end.

Definition run (events : list Event) (st : State) : State :=
  fold_left handle events st.

(** One stroke: the button goes down at [point], the mouse moves through
    [points], the button goes up. *)
Definition stroke (point : Point) (points : list Point) : list Event :=
  MouseDown point :: map MouseMove points ++ [MouseUp].

End Drawing.

(** * Properties *)

(** ** Facts on the numeric helpers *)

Lemma Rleb_true (a b : R) : Rleb a b = true <-> a <= b.
Proof. unfold Rleb. destruct (Rle_dec a b); split; intros; (reflexivity || lra || discriminate). Qed.

Lemma Rleb_false (a b : R) : Rleb a b = false <-> b < a.
Proof. unfold Rleb. destruct (Rle_dec a b); split; intros; (reflexivity || lra || discriminate). Qed.

Lemma Reqb_true (a b : R) : Reqb a b = true <-> a = b.
Proof. unfold Reqb. destruct (Req_dec_T a b); split; intros; (reflexivity || lra || discriminate). Qed.

Lemma Reqb_refl (a : R) : Reqb a a = true.
Proof. now apply Reqb_true. Qed.

Lemma Rmax_cases (a b : R) : (Rmax a b = a /\ b <= a) \/ (Rmax a b = b /\ a <= b).
Proof. unfold Rmax. destruct (Rle_dec a b); [right | left]; split; lra. Qed.

Lemma Rmin_cases (a b : R) : (Rmin a b = a /\ a <= b) \/ (Rmin a b = b /\ b <= a).
Proof. unfold Rmin. destruct (Rle_dec a b); [left | right]; split; lra. Qed.

Lemma sqrt_unit (x : R) : 0 <= x <= 1 -> 0 <= sqrt x <= 1.
Proof.
  intros [H0 H1]. split.
  - apply sqrt_pos.
  - rewrite <- sqrt_1. now apply sqrt_le_1_alt.
Qed.

Lemma Rabs_sin_unit (x : R) : 0 <= Rabs (sin x) <= 1.
Proof.
  split; [apply Rabs_pos |].
  apply Rabs_le. destruct (SIN_bound x). split; lra.
Qed.

(** The elliptical term of the oval and circle shapes lies in [0, 1]. *)
Lemma ellipse_term_unit (t : R) :
  0 <= t <= 1 -> 0 <= sqrt (Rmax 0 (1 - (2 * t - 1) ^ 2)) <= 1.
Proof.
  intros Ht. apply sqrt_unit.
  destruct (Rmax_cases 0 (1 - (2 * t - 1) ^ 2)) as [[-> _] | [-> H]]; [lra |].
  split; [exact H |]. assert (0 <= (2 * t - 1) ^ 2) by (apply pow2_ge_0). lra.
Qed.

(** ** Shape modifier *)

(** C6: for every shape tag and every [(t, s)] in the unit square the shape
    modifier is strictly positive and at most 1.2. *)
Theorem getShapeModifier_range (t s : R) (sh : Shape) :
  0 <= t <= 1 -> 0 <= s <= 1 ->
  0 < getShapeModifier t s sh <= 1.2.
Proof.
  intros Ht Hs. destruct sh; cbv [getShapeModifier]; try lra.
  - pose proof (ellipse_term_unit t Ht). lra.
  - pose proof (ellipse_term_unit t Ht). lra.
  - pose proof (Rabs_sin_unit (t * PI)) as Hsin.
    assert (Hd : 0 <= Rabs (s - 0.5) <= 0.5).
    { split; [apply Rabs_pos | apply Rabs_le; lra]. }
    assert (0 <= Rabs (sin (t * PI)) * Rabs (s - 0.5) <= 0.5) by nra.
    lra.
  - destruct (Rltb s 0.5); nra.
Qed.

Lemma getShapeModifier_range_witness :
  0 <= 0 <= 1 /\ 0 <= 1 <= 1 /\
  0 < getShapeModifier 0 1 AsymmetricTeardrop <= 1.2.
Proof.
  split; [lra |]. split; [lra |]. apply getShapeModifier_range; lra.
Defined.

(** ** Edge profile evaluator *)

(** The tangent of an angle of [d] degrees, [0 <= d < 90], is not negative. *)
Lemma tan_degrees_nonneg (d : R) : 0 <= d < 90 -> 0 <= tan (d * PI / 180).
Proof.
  intros [H0 H90]. pose proof PI_RGT_0 as Hpi.
  destruct (Req_dec_T d 0) as [-> | Hd].
  - replace (0 * PI / 180) with 0 by lra. rewrite tan_0. lra.
  - left. apply tan_gt_0; nra.
Qed.

(** The sine of a quarter turn scaled by a blend factor lies in [0, 1]. *)
Lemma sin_blend_unit (e : R) : 0 <= e <= 1 -> 0 <= sin (e * PI / 2) <= 1.
Proof.
  intros He. pose proof PI_RGT_0 as Hpi. split.
  - apply sin_ge_0; nra.
  - destruct (SIN_bound (e * PI / 2)). lra.
Qed.

(** A tangent cut [thickness / 2 - k * (thickness * e * 0.5)] with [k >= 0],
    floored at 0.1, stays between the floor and the half thickness. *)
Lemma tangent_cut_range (k th e : R) :
  0 <= k -> 0.2 <= th -> 0 <= e <= 1 ->
  0.1 <= Rmax 0.1 (th / 2 - k * (th * e * 0.5)) <= th / 2.
Proof.
  intros Hk Hth He. split; [apply Rmax_l |].
  assert (0 <= k * (th * e * 0.5)) by (apply Rmult_le_pos; nra).
  apply Rmax_lub; lra.
Qed.

(** C2, as amended: for a thickness of at least 0.2 and a blend factor in
    [0, 1] the evaluator returns a value between 0.1 and thickness / 2 for the
    straight, sharp, bevel and miter profiles, for a custom angle of at least
    0 and below 90 degrees, and for the rounded profile once the thickness is
    at least 2.1.  The rounded profile has no floor: at full blend it returns
    thickness / 2 * (1 - 0.9), which reaches 0.1 at thickness 2 in exact
    arithmetic and stays just below it there in binary64, where [1 - 0.9] is
    0.09999999999999998; hence the margin. *)
Theorem applyEdgeAngle_range (a : EdgeProfile) (angle th e : R) :
  0.2 <= th -> 0 <= e <= 1 ->
  (a = CustomAngle -> 0 <= angle < 90) ->
  (a = Rounded -> 2.1 <= th) ->
  0.1 <= applyEdgeAngle a angle th e <= th / 2.
Proof.
  intros Hth He Hangle Hround. destruct a; cbv [applyEdgeAngle].
  - lra.
  - split; [apply Rmax_l |]. apply Rmax_lub; nra.
  - apply tangent_cut_range; auto.
    apply tan_degrees_nonneg. lra.
  - apply tangent_cut_range; auto. apply tan_degrees_nonneg. lra.
  - pose proof (sin_blend_unit e He). specialize (Hround eq_refl). nra.
  - apply tangent_cut_range; auto. apply tan_degrees_nonneg. auto.
  - lra.
Qed.

Lemma applyEdgeAngle_range_witness :
  0.2 <= 6 /\ 0 <= 1 <= 1 /\ 0 <= 60 < 90 /\
  0.1 <= applyEdgeAngle CustomAngle 60 6 1 <= 6 / 2.
Proof.
  split; [lra |]. split; [lra |]. split; [lra |].
  apply applyEdgeAngle_range; try lra; intros H; discriminate H.
Defined.

(** C2 fails as stated: the rounded profile has no floor (thickness 1, blend
    factor 1 gives 0.05), a thickness below 0.2 has its half below the floor,
    and an obtuse custom angle raises the offset above the half thickness. *)
Lemma applyEdgeAngle_range_counterexample :
  ~ (0.1 <= applyEdgeAngle Rounded 45 1 1 <= 1 / 2) /\
  ~ (0.1 <= applyEdgeAngle Straight 45 0.1 1 <= 0.1 / 2) /\
  ~ (0.1 <= applyEdgeAngle CustomAngle 135 6 1 <= 6 / 2).
Proof.
  split; [| split]; cbv [applyEdgeAngle].
  - replace (1 * PI / 2) with (PI / 2) by lra. rewrite sin_PI2. lra.
  - lra.
  - replace (135 * PI / 180) with (PI - PI / 4) by lra.
    rewrite Rtrigo_facts.tan_pi_minus.
    + rewrite tan_PI4. unfold Rmax. destruct (Rle_dec 0.1 (6 / 2 - - (1) * (6 * 1 * 0.5))); lra.
    + rewrite cos_PI4. apply Rgt_not_eq. apply Rdiv_lt_0_compat; [lra |].
      apply sqrt_lt_R0. lra.
Qed.

(** ** Edge profile evaluator: the sharp profile in binary64 *)

Section SharpProfile.
Import PrimFloat.
Local Set Warnings "-inexact-float".

(** C10, as amended: at full blend the sharp profile returns
    [Math.max(0.1, thickness / 2 * 0.050000000000000044)], whatever the
    thickness is; 0.050000000000000044 is what [1 - 1 * 0.95] evaluates to in
    binary64, a little more than 0.05. *)
Theorem applyEdgeAngle_sharp_full_blend (Math_sin Math_tan : float -> float)
    (customAngle thickness : float) :
  Binary64.applyEdgeAngle Math_sin Math_tan Sharp customAngle thickness 1
  = Binary64.Math_max 0.1 (thickness / 2 * 0.050000000000000044)%float.
Proof.
  unfold Binary64.applyEdgeAngle.
  change (1 - 1 * 0.95)%float with 0.050000000000000044%float.
  reflexivity.
Qed.

(** C10 fails as stated.  At the smallest documented thickness the floor
    wins: the evaluator returns 0.1, above 3 / 2 * 0.05.  At thickness 6 the
    rounding of [1 - 1 * 0.95] shows: the evaluator returns
    0.15000000000000013, above 6 / 2 * 0.05 = 0.15000000000000002. *)
Lemma applyEdgeAngle_sharp_counterexample :
  (forall Math_sin Math_tan : float -> float,
     Binary64.applyEdgeAngle Math_sin Math_tan Sharp 45 3 1 = 0.1%float) /\
  (3 / 2 * 0.05 <? 0.1)%float = true /\
  (forall Math_sin Math_tan : float -> float,
     Binary64.applyEdgeAngle Math_sin Math_tan Sharp 45 6 1 = 0.15000000000000013%float) /\
  (6 / 2 * 0.05 <? 0.15000000000000013)%float = true.
Proof. repeat split. Qed.
End SharpProfile.

(** ** Curve smoother *)

Lemma insertByX_length (p : Point) (l : list Point) :
  length (insertByX p l) = S (length l).
Proof.
  induction l as [| q l IH]; simpl; [reflexivity |].
  destruct (Rleb (px p) (px q)); simpl; [reflexivity | now rewrite IH].
Qed.

Lemma sortByX_length (l : list Point) : length (sortByX l) = length l.
Proof.
  induction l as [| p l IH]; simpl; [reflexivity |].
  unfold sortByX in *. now rewrite insertByX_length, IH.
Qed.

Lemma arrayAt_Some {A : Type} (l : list A) (k : Z) :
  (0 <= k < Z.of_nat (length l))%Z -> exists x, arrayAt l k = Some x.
Proof.
  intros [H0 Hlen]. unfold arrayAt.
  destruct (k <? 0)%Z eqn:E; [apply Z.ltb_lt in E; lia |].
  destruct (nth_error l (Z.to_nat k)) eqn:En; [eauto |].
  apply nth_error_None in En. lia.
Qed.

(** [Math.floor] of a number between 0 and an integer bound. *)
Lemma Math_floor_bounds (r : R) (n : Z) :
  0 <= r <= IZR n -> (0 <= Math_floor r <= n)%Z.
Proof.
  intros [H0 Hn]. unfold Math_floor.
  destruct (base_Int_part r) as [Hle Hgt]. split.
  - assert (H : (-1 < Int_part r)%Z) by (apply lt_IZR; lra). lia.
  - apply le_IZR. lra.
Qed.

Lemma sample_parameter_unit (i : nat) :
  (i < 100)%nat -> 0 <= INR i / (INR 100 - 1) <= 1.
Proof.
  intros Hi. replace (INR 100 - 1) with 99 by (simpl; lra).
  assert (0 <= INR i) by apply pos_INR.
  assert (INR i <= 99).
  { replace 99 with (INR 99) by (simpl; lra). apply le_INR. lia. }
  split.
  - apply Rmult_le_pos; lra.
  - apply Rmult_le_reg_r with 99; [lra |]. unfold Rdiv.
    rewrite Rmult_assoc, Rinv_l; lra.
Qed.

(** Every turn of the resampling loop reads inside the sorted array. *)
Lemma smoothSample_Some (sorted : list Point) (tension : R) (i : nat) :
  (1 <= length sorted)%nat -> (i < 100)%nat ->
  exists p, smoothSample sorted tension i = Some p /\
            px p = INR i / 99 /\ 0 <= py p <= 1.
Proof.
  intros Hlen Hi. unfold smoothSample.
  pose proof (sample_parameter_unit i Hi) as Ht.
  set (t := INR i / (INR 100 - 1)) in *.
  set (len := Z.of_nat (length sorted)).
  assert (Hlen' : (1 <= len)%Z) by (unfold len; lia).
  assert (HlenR : 0 <= IZR len - 1).
  { apply IZR_le in Hlen'. lra. }
  assert (Hidx : (0 <= Math_floor (t * (IZR len - 1)) <= len - 1)%Z).
  { apply Math_floor_bounds. rewrite minus_IZR. split; nra. }
  set (index := Math_floor (t * (IZR len - 1))) in *.
  destruct (arrayAt_Some sorted (Z.max 0 (index - 1))) as [p0 ->]; [fold len; lia |].
  destruct (arrayAt_Some sorted index) as [p1 ->]; [fold len; lia |].
  destruct (arrayAt_Some sorted (Z.min (index + 1) (len - 1))) as [p2 ->]; [fold len; lia |].
  destruct (arrayAt_Some sorted (Z.min (len - 1) (Z.min (index + 1) (len - 1) + 1)))
    as [p3 ->]; [fold len; lia |].
  simpl. eexists. split; [reflexivity |]. simpl. split.
  - subst t. replace (INR 100 - 1) with 99 by (simpl; lra). reflexivity.
  - match goal with |- 0 <= Rmax 0 (Rmin 1 ?y) <= 1 =>
      destruct (Rmax_cases 0 (Rmin 1 y)) as [[-> _] | [-> H]];
      [lra | destruct (Rmin_cases 1 y) as [[E _] | [E ?]]; rewrite E in *; lra]
    end.
Qed.

(** A loop over the counters [start, start + n) whose every turn succeeds
    yields one result per counter, in order. *)
Lemma mapM_seq_Some {B : Type} (f : nat -> option B) (P : nat -> B -> Prop) :
  forall n start,
    (forall i, (i < n)%nat -> exists y, f (start + i)%nat = Some y /\ P (start + i)%nat y) ->
    exists out, mapM f (seq start n) = Some out /\ length out = n /\
                forall i, (i < n)%nat ->
                  exists y, nth_error out i = Some y /\ P (start + i)%nat y.
Proof.
  induction n as [| n IH]; intros start Hf.
  - exists []. repeat split; intros; lia.
  - destruct (Hf 0%nat) as (y & Hy & HP); [lia |].
    destruct (IH (S start)) as (out & Hout & Hlen & Hnth).
    { intros i Hi. destruct (Hf (S i)) as (z & Hz & HPz); [lia |].
      exists z. replace (S start + i)%nat with (start + S i)%nat by lia. auto. }
    exists (y :: out). rewrite Nat.add_0_r in Hy, HP. simpl.
    rewrite Hy, Hout. simpl. repeat split; [now rewrite Hlen |].
    intros [| i] Hi.
    + exists y. rewrite Nat.add_0_r. auto.
    + destruct (Hnth i) as (z & Hz & HPz); [lia |].
      exists z. replace (start + S i)%nat with (S start + i)%nat by lia. auto.
Qed.

(** C8: an input of fewer than three points is returned unchanged. *)
Theorem smoothCurvePoints_sparse (points : list Point) (smoothingFactor : R) :
  (length points < 3)%nat ->
  smoothCurvePoints points smoothingFactor = Some points.
Proof.
  intros H. unfold smoothCurvePoints.
  destruct (length points <? 3)%nat eqn:E; [reflexivity |].
  apply Nat.ltb_ge in E. lia.
Qed.

Lemma smoothCurvePoints_sparse_witness :
  (length [{| px := 0.25; py := 0.75 |}; {| px := 0.5; py := 0.5 |}] < 3)%nat /\
  smoothCurvePoints [{| px := 0.25; py := 0.75 |}; {| px := 0.5; py := 0.5 |}] 50
  = Some [{| px := 0.25; py := 0.75 |}; {| px := 0.5; py := 0.5 |}].
Proof.
  split; [simpl; lia | apply smoothCurvePoints_sparse; simpl; lia].
Defined.

(** C7: from at least three points, in any order and for any smoothing
    strength, the smoother returns exactly 100 points; the [x] of sample [i]
    is [i / 99], so the [x] values do not decrease, and every [y] lies in
    [0, 1]. *)
Theorem smoothCurvePoints_resamples (points : list Point) (smoothingFactor : R) :
  (3 <= length points)%nat ->
  exists out,
    smoothCurvePoints points smoothingFactor = Some out /\
    length out = 100%nat /\
    (forall i, (i < 100)%nat ->
       exists p, nth_error out i = Some p /\ px p = INR i / 99 /\ 0 <= py p <= 1) /\
    (forall i j p q, (i <= j)%nat ->
       nth_error out i = Some p -> nth_error out j = Some q -> px p <= px q).
Proof.
  intros Hlen. unfold smoothCurvePoints.
  destruct (length points <? 3)%nat eqn:E; [apply Nat.ltb_lt in E; lia |].
  destruct (mapM_seq_Some (smoothSample (sortByX points) (smoothingFactor / 100))
              (fun i p => px p = INR i / 99 /\ 0 <= py p <= 1) 100 0)
    as (out & Hout & Hl & Hnth).
  { intros i Hi. simpl. apply smoothSample_Some; [rewrite sortByX_length; lia | exact Hi]. }
  exists out. split; [exact Hout |]. split; [exact Hl |]. split; [exact Hnth |].
  intros i j p q Hij Hp Hq.
  assert (Hj : (j < 100)%nat).
  { rewrite <- Hl. apply nth_error_Some. congruence. }
  destruct (Hnth i) as (p' & Hp' & Hpx & _); [lia |].
  destruct (Hnth j) as (q' & Hq' & Hqx & _); [lia |].
  simpl in Hpx, Hqx.
  assert (p' = p) by congruence. assert (q' = q) by congruence. subst.
  rewrite Hpx, Hqx. apply le_INR in Hij. lra.
Qed.

Lemma smoothCurvePoints_resamples_witness :
  (3 <= length [{| px := 0.9; py := 0.2 |}; {| px := 0.1; py := 0.8 |};
                {| px := 0.5; py := 0.5 |}])%nat /\
  exists out,
    smoothCurvePoints [{| px := 0.9; py := 0.2 |}; {| px := 0.1; py := 0.8 |};
                       {| px := 0.5; py := 0.5 |}] 50 = Some out /\
    length out = 100%nat.
Proof.
  split; [simpl; lia |].
  destruct (smoothCurvePoints_resamples
              [{| px := 0.9; py := 0.2 |}; {| px := 0.1; py := 0.8 |};
               {| px := 0.5; py := 0.5 |}] 50) as (out & Hout & Hlen & _);
    [simpl; lia |].
  exists out. split; assumption.
Defined.

(** ** Vertex solver *)

Lemma Math_min4_attained (a b c d : R) :
  let m := Math_min4 a b c d in m = a \/ m = b \/ m = c \/ m = d.
Proof.
  unfold Math_min4, Rmin.
  repeat match goal with |- context [Rle_dec ?x ?y] => destruct (Rle_dec x y) end; auto.
Qed.

(** Within the edge depth the guard of the angle step holds whatever the
    flags are: the nearest edge is the top, the bottom, or a left or right
    edge that is itself within the depth. *)
Lemma shouldApplyAngle_near (b1 b2 b3 : bool) (dt db dl dr depth : R) :
  Rleb (Math_min4 dt db dl dr) depth = true ->
  (b1 || b2 || b3 || Reqb dt (Math_min4 dt db dl dr)
     || Reqb db (Math_min4 dt db dl dr) || Rleb dl depth || Rleb dr depth)%bool = true.
Proof.
  intros H. apply Rleb_true in H.
  destruct (Math_min4_attained dt db dl dr) as [E | [E | [E | E]]].
  - rewrite <- E at 1. rewrite Reqb_refl. now rewrite !orb_true_r.
  - replace (Reqb db (Math_min4 dt db dl dr)) with true
      by (symmetry; apply Reqb_true; auto).
    now rewrite ?orb_true_r, ?orb_true_l.
  - replace (Rleb dl depth) with true by (symmetry; apply Rleb_true; lra).
    now rewrite ?orb_true_r, ?orb_true_l.
  - replace (Rleb dr depth) with true by (symmetry; apply Rleb_true; lra).
    now rewrite ?orb_true_r, ?orb_true_l.
Qed.

(** Replacing [applyAllEdges] leaves the solver's output unchanged. *)
Lemma applyAllEdges_irrelevant (p : RibParameters) (b : bool) (x s t : R)
    (smoothedCurve : option (list Point)) (ws : nat) (curveOffset : R) :
  calculateVertexPosition x s t (withApplyAllEdges b p) smoothedCurve ws curveOffset =
  calculateVertexPosition x s t p smoothedCurve ws curveOffset.
Proof.
  unfold calculateVertexPosition, withApplyAllEdges.
  cbn [ribLength width thickness edgeThickness edgeThicknessApply edgeTop edgeBottom
       edgeLeft edgeRight shape angleType angleTop angleBottom angleLeft angleRight
       customAngle edgeDepth applyAllEdges longitudinalCurve].
  cbv zeta.
  match goal with |- context [Rleb (Math_min4 ?a ?b ?c ?d) ?e] =>
    destruct (Rleb (Math_min4 a b c d) e) eqn:E end.
  - rewrite !shouldApplyAngle_near by exact E. reflexivity.
  - reflexivity.
Qed.

(** C5: two parameter objects that differ only in [applyAllEdges] give the same
    [{ y, topZ, bottomZ }] at every grid point, with the same curve. *)
Theorem calculateVertexPosition_applyAllEdges (p q : RibParameters) (x s t : R)
    (smoothedCurve : option (list Point)) (ws : nat) (curveOffset : R) :
  differOnlyInApplyAllEdges p q ->
  calculateVertexPosition x s t p smoothedCurve ws curveOffset =
  calculateVertexPosition x s t q smoothedCurve ws curveOffset.
Proof.
  intros H. unfold differOnlyInApplyAllEdges in H.
  rewrite <- (applyAllEdges_irrelevant p true), <- (applyAllEdges_irrelevant q true).
  now rewrite H.
Qed.

Lemma calculateVertexPosition_applyAllEdges_witness :
  differOnlyInApplyAllEdges perEdgeParameters (withApplyAllEdges true perEdgeParameters) /\
  calculateVertexPosition 0 0.5 0.5 perEdgeParameters None widthSegments 0 =
  calculateVertexPosition 0 0.5 0.5 (withApplyAllEdges true perEdgeParameters)
    None widthSegments 0.
Proof.
  split; [reflexivity |].
  apply calculateVertexPosition_applyAllEdges. reflexivity.
Defined.

Lemma applyEdgeAngle_pos (a : EdgeProfile) (angle th e : R) :
  0 < th -> 0 < applyEdgeAngle a angle th e.
Proof.
  intros Hth. destruct a; cbv [applyEdgeAngle];
    try (apply Rlt_le_trans with 0.1; [lra | apply Rmax_l]); try lra.
  destruct (SIN_bound (e * PI / 2)). nra.
Qed.

Lemma Math_min4_nonneg (a b c d : R) :
  0 <= a -> 0 <= b -> 0 <= c -> 0 <= d -> 0 <= Math_min4 a b c d.
Proof.
  intros. unfold Math_min4. repeat apply Rmin_glb; assumption.
Qed.



Lemma progress_unit (m depth : R) : 0 <= m -> 0 < depth -> m <= depth -> 0 <= m / depth <= 1.
Proof.
  intros Hm Hd Hle. split.
  - apply Rmult_le_pos; [lra |]. left. now apply Rinv_0_lt_compat.
  - apply Rmult_le_reg_r with depth; [lra |]. unfold Rdiv.
    rewrite Rmult_assoc, Rinv_l; lra.
Qed.



(** ** Mesh builder: the vertex grid *)

Section GridShape.
Context {A : Type} (xAt : nat -> A) (vertexDataAt : nat -> nat -> VertexData A).

Lemma topIdx_of_length (k : nat) : (N.of_nat (6 * k) / 3)%N = N.of_nat (2 * k).
Proof.
  replace (N.of_nat (6 * k)) with (N.of_nat (2 * k) * 3)%N by lia.
  apply N.div_mul. discriminate.
Qed.

(** The inner loop: each turn pushes six numbers and one cell. *)
Lemma pushVertex_loop (i : nat) :
  forall (js : list nat) (vertices : list A) (row : list GridCell) (k : nat),
    length vertices = (6 * k)%nat ->
    fold_left (pushVertex xAt vertexDataAt i) js (vertices, row)
    = (vertices ++ flat_map (vertexNumbers xAt vertexDataAt i) js,
       row ++ map cellOf (seq k (length js))).
Proof.
  induction js as [| j js IH]; intros vertices row k Hlen.
  - cbn [fold_left flat_map length seq map]. now rewrite !app_nil_r.
  - cbn [fold_left pushVertex]. rewrite Hlen, topIdx_of_length.
    change {| top := N.of_nat (2 * k); bottom := N.of_nat (2 * k) + 1 |} with (cellOf k).
    rewrite (IH _ _ (S k)) by (rewrite !length_app; cbn [length]; lia).
    cbn [flat_map length seq map]. unfold vertexNumbers at 2. cbv zeta.
    now rewrite <- !app_assoc.
Qed.

Lemma vertexNumbers_row_length (i : nat) (js : list nat) :
  length (flat_map (vertexNumbers xAt vertexDataAt i) js) = (6 * length js)%nat.
Proof.
  induction js as [| j js IH]; [reflexivity |].
  cbn [flat_map]. rewrite length_app, IH. cbn [vertexNumbers length]. lia.
Qed.

(** The outer loop: each turn pushes one row of [widthSegments + 1] cells. *)
Lemma pushRow_loop :
  forall (ns : list nat) (vertices : list A) (grid : list (list GridCell)) (k : nat),
    length vertices = (6 * k)%nat ->
    fold_left (pushRow xAt vertexDataAt) ns (vertices, grid)
    = (vertices ++ flat_map (fun i => flat_map (vertexNumbers xAt vertexDataAt i)
                                               (seq 0 (S widthSegments))) ns,
       grid ++ map (fun r => map cellOf (seq (k + r * S widthSegments) (S widthSegments)))
                   (seq 0 (length ns))).
Proof.
  induction ns as [| i ns IH]; intros vertices grid k Hlen.
  - cbn [fold_left flat_map length seq map]. now rewrite !app_nil_r.
  - cbn [fold_left]. unfold pushRow at 2.
    rewrite (pushVertex_loop i _ _ _ k Hlen), length_seq.
    rewrite (IH _ _ (k + S widthSegments)%nat)
      by (rewrite length_app, vertexNumbers_row_length, length_seq; lia).
    cbn [flat_map length]. rewrite <- !app_assoc. f_equal. f_equal.
    change (seq 0 (S (length ns))) with (0%nat :: seq 1 (length ns)).
    rewrite <- seq_shift. cbn [app map]. rewrite map_map. f_equal.
    + f_equal. f_equal. lia.
    + apply map_ext. intros r. f_equal. f_equal. lia.
Qed.

(** The vertex loop in closed form; the grid does not depend on the
    positions. *)
Lemma generateVertices_closed :
  generateVertices xAt vertexDataAt = (vertexBuffer xAt vertexDataAt, ribGrid).
Proof.
  unfold generateVertices.
  rewrite (pushRow_loop _ [] [] 0 eq_refl), length_seq. cbn [app]. f_equal.
Qed.

Lemma generateVertices_grid : snd (generateVertices xAt vertexDataAt) = ribGrid.
Proof. now rewrite generateVertices_closed. Qed.
End GridShape.

(** ** Mesh builder: the index buffer is a closed 2-manifold *)

Lemma edgeKey_sameEdge (x y u v : N) :
  bool_decide (edgeKey x y = edgeKey u v) = sameEdge u v x y.
Proof.
  unfold edgeKey, sameEdge.
  destruct (N.leb_spec x y), (N.leb_spec u v),
    (N.eqb_spec u x), (N.eqb_spec v y), (N.eqb_spec u y), (N.eqb_spec v x);
    cbn [andb orb];
    first [ apply bool_decide_eq_true; f_equal; lia
          | apply bool_decide_eq_false; intros [= ? ?]; lia ].
Qed.

(** A side occurs once among the three sides of a proper triangle. *)
Lemma triEdges_count (tri : N * N * N) (u v : N) :
  properTriangle tri = true ->
  length (List.filter (fun e => bool_decide (e = edgeKey u v)) (triEdges tri))
  = if hasEdge u v tri then 1%nat else 0%nat.
Proof.
  destruct tri as [[a b] c]. unfold properTriangle, triEdges, hasEdge.
  cbn [List.filter]. rewrite !edgeKey_sameEdge. unfold sameEdge.
  destruct (N.eqb_spec a b), (N.eqb_spec b c), (N.eqb_spec c a);
    cbn [negb andb]; try discriminate. intros _.
  destruct (N.eqb_spec u a), (N.eqb_spec u b), (N.eqb_spec u c),
    (N.eqb_spec v a), (N.eqb_spec v b), (N.eqb_spec v c);
    cbn [andb orb length]; first [reflexivity | lia].
Qed.

Lemma sharing_count (tris : list (N * N * N)) (u v : N) :
  forallb properTriangle tris = true ->
  length (List.filter (fun e => bool_decide (e = edgeKey u v)) (flat_map triEdges tris))
  = trianglesSharing u v tris.
Proof.
  unfold trianglesSharing.
  induction tris as [| tri tris IH]; cbn [flat_map forallb List.filter]; [reflexivity |].
  intros [Htri Hrest]%andb_prop.
  rewrite List.filter_app, length_app, triEdges_count, IH by assumption.
  destruct (hasEdge u v tri); reflexivity.
Qed.

(** The counting map holds the number of occurrences of each key. *)
Lemma countEdges_lookup (es : list (N * N)) (e : N * N) :
  countEdges es !! e
  = match length (List.filter (fun e' => bool_decide (e' = e)) es) with
    | O => None
    | S n => Some (S n)
    end.
Proof.
  induction es as [| e0 es IH]; cbn [countEdges fold_right List.filter].
  - apply lookup_empty.
  - fold (countEdges es). rewrite lookup_insert.
    destruct (decide (e0 = e)) as [-> | Hne].
    + rewrite bool_decide_eq_true_2 by reflexivity. cbn [length]. rewrite IH.
      now destruct (length _).
    + rewrite bool_decide_eq_false_2 by assumption. exact IH.
Qed.

Lemma triangle_side_shared (tris : list (N * N * N)) (u v : N) :
  forallb properTriangle tris = true ->
  countEdges (flat_map triEdges tris) !! edgeKey u v = Some 2%nat ->
  trianglesSharing u v tris = 2%nat.
Proof.
  intros Hproper Hcount. rewrite countEdges_lookup, sharing_count in Hcount by assumption.
  destruct (trianglesSharing u v tris); congruence.
Qed.

(** The checker is sound. *)
Lemma manifoldb_sound (indices : list N) :
  manifoldb indices = true -> closedManifold indices.
Proof.
  unfold manifoldb. intros [[Hlen Hproper]%andb_prop Hcount]%andb_prop.
  split; [now apply Nat.eqb_eq |].
  intros a b c Hin.
  pose proof (proj1 (forallb_forall _ _) Hproper _ Hin) as Habc.
  assert (Hside : forall e, In e (triEdges (a, b, c)) ->
            countEdges (flat_map triEdges (triangles indices)) !! e = Some 2%nat).
  { intros e He.
    assert (Hin' : In e (flat_map triEdges (triangles indices))).
    { apply in_flat_map. eauto. }
    pose proof (proj1 (forallb_forall _ _) Hcount _ Hin') as H. cbv beta in H.
    destruct (countEdges _ !! e) as [[| [| [| n]]] |]; congruence. }
  split.
  - unfold properTriangle in Habc.
    destruct (N.eqb_spec a b), (N.eqb_spec b c), (N.eqb_spec c a);
      cbn [negb andb] in Habc; try discriminate. auto.
  - repeat split; apply triangle_side_shared; auto; apply Hside; cbn [triEdges In]; auto.
Qed.

(** The three face loops succeed on the grid and yield a closed manifold. *)
Lemma ribGrid_manifoldb :
  match generateIndices ribGrid with
  | Some indices => manifoldb indices
  | None => false
  end = true.
Proof. vm_compute. reflexivity. Qed.

(** The smoother never throws. *)
Lemma smoothCurvePoints_Some (points : list Point) (smoothingFactor : R) :
  exists out, smoothCurvePoints points smoothingFactor = Some out.
Proof.
  unfold smoothCurvePoints.
  destruct (length points <? 3)%nat eqn:E; [eauto |].
  apply Nat.ltb_ge in E.
  destruct (mapM_seq_Some (smoothSample (sortByX points) (smoothingFactor / 100))
              (fun _ _ => True) 100 0) as (out & Hout & _).
  { intros i Hi.
    destruct (smoothSample_Some (sortByX points) (smoothingFactor / 100) i)
      as (p & Hp & _); [rewrite sortByX_length; lia | exact Hi | eauto]. }
  eauto.
Qed.

(** The curve handed to the vertex solver is always defined. *)
Lemma smoothedCurve_Some (params : RibParameters) (pts : list Point) (sf : R) :
  exists curve,
    (if Shape_eqb (shape params) Custom && (0 <? length pts)%nat
     then Some <$> smoothCurvePoints pts sf
     else Some None) = Some curve.
Proof.
  destruct (Shape_eqb (shape params) Custom && (0 <? length pts)%nat); [| eauto].
  destruct (smoothCurvePoints_Some pts sf) as [out ->]. simpl. eauto.
Qed.

(** C1: whatever the parameters, the drawn points and the smoothing amount,
    mesh generation succeeds and its index buffer is a closed 2-manifold:
    every side of every triangle is shared by exactly two triangles. *)
Theorem createRibGeometry_closed_manifold (params : RibParameters)
    (customCurvePoints : list Point) (smoothingFactor : R) :
  exists geometry,
    createRibGeometry params customCurvePoints smoothingFactor = Some geometry /\
    closedManifold (indices geometry).
Proof.
  unfold createRibGeometry.
  destruct (smoothedCurve_Some params customCurvePoints smoothingFactor) as [curve ->].
  cbn [mbind option_bind].
  match goal with |- context [generateVertices ?xs ?vd] =>
    pose proof (generateVertices_grid xs vd) as Hgrid;
    destruct (generateVertices xs vd) as [vertices vertexGrid]
  end.
  cbn [snd] in Hgrid. subst vertexGrid.
  pose proof ribGrid_manifoldb as Hcheck.
  destruct (generateIndices ribGrid) as [idx |]; [| discriminate].
  cbn [mbind option_bind]. eexists. split; [reflexivity |].
  cbn [indices]. now apply manifoldb_sound.
Qed.
(** ** Exact evaluation: from rational to real numbers *)

Lemma Q2R_Qred (q : Q) : Q2R (Qred q) = Q2R q.
Proof. apply Qeq_eqR, Qred_correct. Qed.

Lemma Q2R_Qmin (a b : Q) : Q2R (Qmin a b) = Rmin (Q2R a) (Q2R b).
Proof.
  destruct (Q.min_spec_le a b) as [[Hle E] | [Hle E]];
    rewrite (Qeq_eqR _ _ E); apply Qle_Rle in Hle.
  - symmetry. now apply Rmin_left.
  - symmetry. now apply Rmin_right.
Qed.

Lemma Q2R_Qabs (q : Q) : Q2R (Qabs q) = Rabs (Q2R q).
Proof.
  destruct (Qlt_le_dec q 0) as [Hneg | Hpos].
  - rewrite (Qeq_eqR _ _ (Qabs_neg q (Qlt_le_weak _ _ Hneg))), Q2R_opp.
    apply Qlt_Rlt in Hneg. rewrite RMicromega.Q2R_0 in Hneg.
    symmetry. apply Rabs_left. exact Hneg.
  - rewrite (Qeq_eqR _ _ (Qabs_pos q Hpos)).
    apply Qle_Rle in Hpos. rewrite RMicromega.Q2R_0 in Hpos.
    symmetry. apply Rabs_right. lra.
Qed.

Lemma Qle_bool_Rleb (a b : Q) : Qle_bool a b = Rleb (Q2R a) (Q2R b).
Proof.
  destruct (Qle_bool a b) eqn:E; symmetry.
  - apply Rleb_true, Qle_Rle, Qle_bool_iff, E.
  - apply Rleb_false. apply Rnot_le_lt. intros H. apply Rle_Qle, Qle_bool_iff in H.
    congruence.
Qed.

Lemma Q2R_fraction (n d : nat) :
  (0 < d)%nat -> Q2R (Z.of_nat n # Pos.of_nat d) = INR n / INR d.
Proof.
  intros Hd. unfold Q2R. cbn [Qnum Qden].
  rewrite !INR_IZR_INZ. unfold Rdiv. repeat f_equal.
  rewrite <- positive_nat_Z, Nat2Pos.id; [reflexivity | lia].
Qed.

Lemma Q2R_half : Q2R (1 # 2) = 0.5.
Proof. unfold Q2R. cbn [Qnum Qden]. lra. Qed.

Lemma Q2R_number (z : Z) : Q2R (z # 1) = IZR z.
Proof. unfold Q2R. cbn [Qnum Qden]. lra. Qed.

(** ** The solver on a flat rib *)

Lemma calculateVertexPosition_flat (p : RibParameters) (x s t : R) (ws : nat) (co : R) :
  flatRib p -> co = 0 ->
  calculateVertexPosition x s t p None ws co
  = let m := Math_min4 (width p * (1 - s)) (width p * s)
                       (ribLength p * t) (ribLength p * (1 - t)) in
    let ct := if Rleb m (edgeDepth p)
              then edgeThickness p * (1 - m / edgeDepth p) + thickness p * (m / edgeDepth p)
              else thickness p in
    {| vy := (s - 0.5) * width p; vtopZ := ct / 2; vbottomZ := - ct / 2 |}.
Proof.
  intros (Hshape & Hangle & Hmode & _) ->.
  unfold calculateVertexPosition. rewrite Hshape, Hangle, Hmode.
  cbn [getShapeModifier]. cbv zeta. rewrite Rabs_R1, !Rmult_1_r.
  match goal with |- context [Rleb (Math_min4 ?a ?b ?c ?d) ?e] =>
    destruct (Rleb (Math_min4 a b c d) e) eqn:E end.
  - rewrite shouldApplyAngle_near by exact E. cbn [applyEdgeAngle].
    f_equal; ring.
  - f_equal; ring.
Qed.

(** The minimum edge distance and the thickness of a flat rib at a grid
    point are the images of their rational evaluations. *)
Section FlatRibVertex.
Variables (p : RibParameters) (L W th eT eD : Q).
Hypothesis Hflat : flatRib p.
Hypothesis HL : ribLength p = Q2R L.
Hypothesis HW : width p = Q2R W.
Hypothesis Hth : thickness p = Q2R th.
Hypothesis HeT : edgeThickness p = Q2R eT.
Hypothesis HeD : edgeDepth p = Q2R eD.
Hypothesis HeD0 : ~ (eD == 0)%Q.

Lemma tAt_Q2R (i : nat) : Q2R (Rational.tAt i) = INR i / INR segments.
Proof. apply Q2R_fraction. unfold segments. lia. Qed.

Lemma sAt_Q2R (j : nat) : Q2R (Rational.sAt j) = INR j / INR widthSegments.
Proof. apply Q2R_fraction. unfold widthSegments. lia. Qed.

Lemma xAt_Q2R (i : nat) :
  (INR i / INR segments - 0.5) * ribLength p = Q2R (Rational.xAt L i).
Proof.
  unfold Rational.xAt.
  now rewrite Q2R_Qred, Q2R_mult, Q2R_minus, tAt_Q2R, Q2R_half, HL.
Qed.

Lemma minDistToEdge_Q2R (i j : nat) :
  Math_min4 (width p * (1 - INR j / INR widthSegments))
            (width p * (INR j / INR widthSegments))
            (ribLength p * (INR i / INR segments))
            (ribLength p * (1 - INR i / INR segments))
  = Q2R (Rational.minDistToEdge L W i j).
Proof.
  unfold Rational.minDistToEdge, Math_min4. cbv zeta.
  rewrite !Q2R_Qmin, !Q2R_mult, !Q2R_minus, tAt_Q2R, sAt_Q2R, RMicromega.Q2R_1.
  now rewrite HL, HW.
Qed.

Lemma vertexDataAt_Q2R (i j : nat) (x : R) (co : R) :
  co = 0 ->
  calculateVertexPosition x (INR j / INR widthSegments) (INR i / INR segments)
    p None widthSegments co
  = mapVertexData Q2R (Rational.vertexDataAt L W th eT eD i j).
Proof.
  intros Hco. rewrite (calculateVertexPosition_flat p _ _ _ _ _ Hflat Hco).
  cbv zeta. rewrite minDistToEdge_Q2R.
  unfold mapVertexData, Rational.vertexDataAt. cbn [vy vtopZ vbottomZ].
  assert (Hct : (if Rleb (Q2R (Rational.minDistToEdge L W i j)) (edgeDepth p)
                 then edgeThickness p * (1 - Q2R (Rational.minDistToEdge L W i j) / edgeDepth p)
                      + thickness p * (Q2R (Rational.minDistToEdge L W i j) / edgeDepth p)
                 else thickness p)
                = Q2R (Rational.currentThickness L W th eT eD i j)).
  { unfold Rational.currentThickness. cbv zeta.
    rewrite Qle_bool_Rleb, <- HeD.
    destruct (Rleb _ (edgeDepth p)); [| exact Hth].
    rewrite Q2R_plus, !Q2R_mult, Q2R_minus, !Q2R_div, RMicromega.Q2R_1 by exact HeD0.
    now rewrite HeT, Hth, HeD. }
  rewrite Hct. f_equal.
  - now rewrite Q2R_Qred, Q2R_mult, Q2R_minus, sAt_Q2R, Q2R_half, HW.
  - rewrite Q2R_Qred, Q2R_div by discriminate.
    rewrite Q2R_number. reflexivity.
  - rewrite Q2R_Qred, Q2R_div, Q2R_opp by discriminate.
    rewrite Q2R_number. reflexivity.
Qed.
End FlatRibVertex.

(** ** The vertex loop commutes with a map on the numbers *)

Section GenerateVerticesMap.
Context {A B : Type} (f : A -> B).
Variables (xA : nat -> A) (vdA : nat -> nat -> VertexData A).
Variables (xB : nat -> B) (vdB : nat -> nat -> VertexData B).
Hypothesis Hx : forall i, xB i = f (xA i).
Hypothesis Hvd : forall i j, vdB i j = mapVertexData f (vdA i j).

Lemma pushVertex_map (i : nat) :
  forall (js : list nat) (vertices : list A) (row : list GridCell),
    fold_left (pushVertex xB vdB i) js (map f vertices, row)
    = (map f (fst (fold_left (pushVertex xA vdA i) js (vertices, row))),
       snd (fold_left (pushVertex xA vdA i) js (vertices, row))).
Proof.
  induction js as [| j js IH]; intros vertices row; [reflexivity |].
  cbn [fold_left].
  assert (Hstep : pushVertex xB vdB i (map f vertices, row) j
                  = (map f (fst (pushVertex xA vdA i (vertices, row) j)),
                     snd (pushVertex xA vdA i (vertices, row) j))).
  { unfold pushVertex. cbn [fst snd]. rewrite length_map, map_app, Hx, Hvd. reflexivity. }
  rewrite Hstep. destruct (pushVertex xA vdA i (vertices, row) j) as [v r]. apply IH.
Qed.

Lemma pushRow_map :
  forall (ns : list nat) (vertices : list A) (grid : list (list GridCell)),
    fold_left (pushRow xB vdB) ns (map f vertices, grid)
    = (map f (fst (fold_left (pushRow xA vdA) ns (vertices, grid))),
       snd (fold_left (pushRow xA vdA) ns (vertices, grid))).
Proof.
  induction ns as [| i ns IH]; intros vertices grid; [reflexivity |].
  cbn [fold_left].
  assert (Hstep : pushRow xB vdB (map f vertices, grid) i
                  = (map f (fst (pushRow xA vdA (vertices, grid) i)),
                     snd (pushRow xA vdA (vertices, grid) i))).
  { unfold pushRow. rewrite pushVertex_map.
    destruct (fold_left (pushVertex xA vdA i) _ _) as [v r]. reflexivity. }
  rewrite Hstep. destruct (pushRow xA vdA (vertices, grid) i) as [v r]. apply IH.
Qed.

Lemma generateVertices_map :
  generateVertices xB vdB
  = (map f (fst (generateVertices xA vdA)), snd (generateVertices xA vdA)).
Proof. exact (pushRow_map (seq 0 (S segments)) [] []). Qed.
End GenerateVerticesMap.

(** ** The volume loop on rational positions *)

Lemma triple_induction {A : Type} (P : list A -> Prop) :
  P [] -> (forall a, P [a]) -> (forall a b, P [a; b]) ->
  (forall a b c rest, P rest -> P (a :: b :: c :: rest)) ->
  forall l, P l.
Proof.
  intros H0 H1 H2 H3 l.
  assert (H : P l /\ (forall a, P (a :: l)) /\ (forall a b, P (a :: b :: l))).
  { induction l as [| c l (IH0 & IH1 & IH2)]; [auto |].
    split; [apply IH1 |]. split; [intros a; apply IH2 |].
    intros a b. apply H3, IH0. }
  apply H.
Qed.

Lemma nth_error_map_seq {B : Type} (f : nat -> B) (n i : nat) (y : B) :
  nth_error (map f (seq 0 n)) i = Some y -> (i < n)%nat /\ y = f i.
Proof.
  intros H.
  assert (Hi : (i < n)%nat).
  { rewrite <- (length_seq n 0), <- (length_map f). apply nth_error_Some. congruence. }
  split; [exact Hi |].
  rewrite nth_error_map, (nth_error_nth' _ 0%nat), seq_nth in H
    by (rewrite ?length_seq; exact Hi).
  cbn in H. congruence.
Qed.

(** Reading inside a concatenation of blocks of the same length. *)
Lemma nth_error_flat_map_block {A B : Type} (f : A -> list B) (len : nat) :
  (forall a, length (f a) = len) ->
  forall (l : list A) (n k : nat) (a : A),
    nth_error l n = Some a -> (k < len)%nat ->
    nth_error (flat_map f l) (n * len + k) = nth_error (f a) k.
Proof.
  intros Hlen. induction l as [| a0 l IH]; intros [| n] k a Hn Hk;
    cbn [nth_error] in Hn; try discriminate; cbn [flat_map].
  - injection Hn as ->. cbn [Nat.mul Nat.add]. apply nth_error_app1. now rewrite Hlen.
  - rewrite nth_error_app2 by (rewrite Hlen; lia).
    rewrite Hlen. replace (S n * len + k - len)%nat with (n * len + k)%nat by lia.
    now apply IH.
Qed.

(** The numbers of grid point [(i, j)] in the position buffer. *)
Lemma vertexBuffer_nth {A : Type} (xAt : nat -> A) (vertexDataAt : nat -> nat -> VertexData A)
    (i j k : nat) :
  (i < S segments)%nat -> (j < S widthSegments)%nat -> (k < 6)%nat ->
  nth_error (vertexBuffer xAt vertexDataAt) (6 * (i * S widthSegments + j) + k)
  = nth_error (vertexNumbers xAt vertexDataAt i j) k.
Proof.
  intros Hi Hj Hk. unfold vertexBuffer.
  replace (6 * (i * S widthSegments + j) + k)%nat
    with (i * (6 * S widthSegments) + (j * 6 + k))%nat by lia.
  rewrite (nth_error_flat_map_block
             (fun i => flat_map (vertexNumbers xAt vertexDataAt i) (seq 0 (S widthSegments)))
             (6 * S widthSegments)) with (a := i).
  - apply (nth_error_flat_map_block (vertexNumbers xAt vertexDataAt i) 6);
      [reflexivity | | exact Hk].
    rewrite (nth_error_nth' _ 0%nat), seq_nth by (rewrite ?length_seq; exact Hj).
    reflexivity.
  - intros a. now rewrite vertexNumbers_row_length, length_seq.
  - rewrite (nth_error_nth' _ 0%nat), seq_nth by (rewrite ?length_seq; exact Hi).
    reflexivity.
  - lia.
Qed.

(** A vertex of the rational evaluation is read at the same place of the
    position buffer. *)
Lemma vertexAt_positionAt (L W th eT eD : Q) (q : N) (x y z : Q) :
  Rational.vertexAt (Rational.vertexRows L W th eT eD) q = Some (x, y, z) ->
  let buffer := map Q2R (vertexBuffer (Rational.xAt L) (Rational.vertexDataAt L W th eT eD)) in
  positionAt buffer (q * 3) = Some (Q2R x) /\
  positionAt buffer (q * 3 + 1) = Some (Q2R y) /\
  positionAt buffer (q * 3 + 2) = Some (Q2R z).
Proof.
  unfold Rational.vertexAt, Rational.vertexRows. cbv zeta.
  set (w := N.of_nat (S widthSegments)).
  destruct (nth_error _ (N.to_nat (q / 2 / w))) as [row |] eqn:Erow; [| discriminate].
  apply nth_error_map_seq in Erow as [Hi ->].
  destruct (nth_error _ (N.to_nat ((q / 2) mod w))) as [[x0 d] |] eqn:Ecell; [| discriminate].
  apply nth_error_map_seq in Ecell as [Hj [= -> ->]].
  intros [= <- <- <-].
  set (i := N.to_nat (q / 2 / w)) in *. set (j := N.to_nat ((q / 2) mod w)) in *.
  assert (Hq : N.to_nat q = (2 * (i * S widthSegments + j) + N.to_nat (q mod 2))%nat).
  { subst i j. pose proof (N.div_mod q 2 ltac:(discriminate)) as H2.
    pose proof (N.div_mod (q / 2) w ltac:(discriminate)) as Hw.
    assert (Hw' : N.to_nat w = S widthSegments) by (subst w; apply Nat2N.id).
    rewrite <- Hw'. lia. }
  unfold positionAt. rewrite !nth_error_map.
  assert (Hbit : (q mod 2 = 0 /\ N.even q = true \/ q mod 2 = 1 /\ N.even q = false)%N).
  { rewrite <- N.bit0_mod, N.bit0_odd, <- N.negb_even. destruct (N.even q); cbn; auto. }
  destruct Hbit as [[Hbit ->] | [Hbit ->]]; rewrite Hbit in Hq; cbn [N.to_nat] in Hq.
  - replace (N.to_nat (q * 3)) with (6 * (i * S widthSegments + j) + 0)%nat by lia.
    replace (N.to_nat (q * 3 + 1)) with (6 * (i * S widthSegments + j) + 1)%nat by lia.
    replace (N.to_nat (q * 3 + 2)) with (6 * (i * S widthSegments + j) + 2)%nat by lia.
    rewrite !vertexBuffer_nth by (assumption || lia). cbn. auto.
  - replace (N.to_nat (q * 3)) with (6 * (i * S widthSegments + j) + 3)%nat by lia.
    replace (N.to_nat (q * 3 + 1)) with (6 * (i * S widthSegments + j) + 4)%nat by lia.
    replace (N.to_nat (q * 3 + 2)) with (6 * (i * S widthSegments + j) + 5)%nat by lia.
    rewrite !vertexBuffer_nth by (assumption || lia). cbn. auto.
Qed.

Section FlatRibVolume.
Variables L W th eT eD : Q.

Let rows := Rational.vertexRows L W th eT eD.
Let buffer := map Q2R (vertexBuffer (Rational.xAt L) (Rational.vertexDataAt L W th eT eD)).

Lemma volumeLoop_Q2R :
  forall (idx : list N) (acc v : Q),
    Rational.volumeLoop rows idx acc = Some v ->
    volumeLoop buffer idx (Q2R acc) = Some (Q2R v).
Proof.
  induction idx as [| a | a b | a b c rest IH] using triple_induction;
    intros acc v H; cbn [Rational.volumeLoop] in H; try discriminate.
  - injection H as ->. reflexivity.
  - destruct (Rational.vertexAt rows a) as [[[x1 y1] z1] |] eqn:Ea; [| discriminate].
    destruct (Rational.vertexAt rows b) as [[[x2 y2] z2] |] eqn:Eb; [| discriminate].
    destruct (Rational.vertexAt rows c) as [[[x3 y3] z3] |] eqn:Ec; [| discriminate].
    apply vertexAt_positionAt in Ea as (Ea0 & Ea1 & Ea2).
    apply vertexAt_positionAt in Eb as (Eb0 & Eb1 & Eb2).
    apply vertexAt_positionAt in Ec as (Ec0 & Ec1 & Ec2).
    cbn [volumeLoop]. cbv zeta. fold buffer in Ea0, Ea1, Ea2, Eb0, Eb1, Eb2, Ec0, Ec1, Ec2.
    rewrite Ea0, Ea1, Ea2, Eb0, Eb1, Eb2, Ec0, Ec1, Ec2. cbn [mbind option_bind].
    rewrite <- (IH _ _ H). f_equal.
    rewrite Q2R_Qred, Q2R_plus, Q2R_div, Q2R_Qabs by discriminate.
    rewrite !Q2R_plus, !Q2R_mult, !Q2R_minus, !Q2R_mult.
    rewrite Q2R_number. reflexivity.
Qed.

(** The volume statistic of a geometry whose positions are rational. *)
Lemma computedVolume_Q2R (idx : list N) (volume : Q) :
  Rational.volumeLoop rows idx 0 = Some volume ->
  computedVolume {| positions := buffer; indices := idx |}
  = Some (Q2R (Qred (Qabs volume / 1000))).
Proof.
  intros Evol. unfold computedVolume. cbn [positions indices].
  rewrite <- RMicromega.Q2R_0 at 1. rewrite (volumeLoop_Q2R _ _ _ Evol).
  cbn [mbind option_bind].
  rewrite Q2R_Qred, Q2R_div, Q2R_Qabs by discriminate.
  rewrite Q2R_number. reflexivity.
Qed.

(** The geometry of a flat rib with rational dimensions. *)
Lemma createRibGeometry_flat (p : RibParameters)
    (customCurvePoints : list Point) (smoothingFactor : R) :
  flatRib p ->
  ribLength p = Q2R L -> width p = Q2R W -> thickness p = Q2R th ->
  edgeThickness p = Q2R eT -> edgeDepth p = Q2R eD -> ~ (eD == 0)%Q ->
  createRibGeometry p customCurvePoints smoothingFactor
  = (indices ← generateIndices ribGrid;
     Some {| positions := buffer; indices := indices |}).
Proof.
  intros Hflat HL HW Hth HeT HeD HeD0.
  unfold createRibGeometry.
  destruct Hflat as (Hshape & Hflat'). rewrite Hshape. cbn [Shape_eqb andb mbind option_bind].
  pose proof (conj Hshape Hflat') as Hflat. destruct Hflat' as (_ & _ & Hlc).
  rewrite (generateVertices_map Q2R (Rational.xAt L) (Rational.vertexDataAt L W th eT eD)).
  - rewrite generateVertices_closed. reflexivity.
  - intros i. apply xAt_Q2R. exact HL.
  - intros i j. apply (vertexDataAt_Q2R p L W th eT eD); try assumption.
    rewrite Hlc. unfold Rdiv. rewrite Rmult_0_l, Rmult_0_r, Rmult_0_l. reflexivity.
Qed.

(** What a successful rational evaluation went through. *)
Lemma volumeOf_inv (rs : list (list (Q * VertexData Q))) (oi : option (list N)) (v : Q) :
  Rational.volumeOf rs oi = Some v ->
  exists idx volume,
    oi = Some idx /\ Rational.volumeLoop rs idx 0 = Some volume /\
    v = Qred (Qabs volume / 1000).
Proof.
  unfold Rational.volumeOf. destruct oi as [idx |]; [| discriminate].
  destruct (Rational.volumeLoop rs idx 0) as [volume |] eqn:Evol; [| discriminate].
  intros [= <-]. exists idx, volume. repeat split; auto.
Qed.

(** The mesh of a flat rib whose dimensions are rational numbers is built
    without error, and its volume statistic is the rational evaluation. *)
Lemma flat_rib_volume (p : RibParameters) (v : Q)
    (customCurvePoints : list Point) (smoothingFactor : R) :
  flatRib p ->
  ribLength p = Q2R L -> width p = Q2R W -> thickness p = Q2R th ->
  edgeThickness p = Q2R eT -> edgeDepth p = Q2R eD -> ~ (eD == 0)%Q ->
  Rational.volumeOf rows (generateIndices ribGrid) = Some v ->
  exists geometry,
    createRibGeometry p customCurvePoints smoothingFactor = Some geometry /\
    computedVolume geometry = Some (Q2R v).
Proof.
  intros Hflat HL HW Hth HeT HeD HeD0 Hv.
  apply volumeOf_inv in Hv as (idx & volume & Hidx & Hvol & ->).
  exists {| positions := buffer; indices := idx |}. split.
  - rewrite (createRibGeometry_flat p) by assumption. rewrite Hidx. reflexivity.
  - apply computedVolume_Q2R. exact Hvol.
Qed.
End FlatRibVolume.

(** ** Volume statistic *)

Lemma scenario_volumeQ :
  Rational.volumeOf (Rational.vertexRows 100 60 6 6 10) (generateIndices ribGrid)
  = Some 36%Q.
Proof. vm_cast_no_check (eq_refl (Some 36%Q)). Qed.

Lemma thickEdge_volumeQ_3 :
  Rational.volumeOf (Rational.vertexRows 50 30 3 12 3) (generateIndices ribGrid)
  = Some (46847 # 2400)%Q.
Proof. vm_cast_no_check (eq_refl (Some (46847 # 2400)%Q)). Qed.

Lemma thickEdge_volumeQ_4 :
  Rational.volumeOf (Rational.vertexRows 50 30 4 12 3) (generateIndices ribGrid)
  = Some (25573 # 1350)%Q.
Proof. vm_cast_no_check (eq_refl (Some (25573 # 1350)%Q)). Qed.

(** C3: a rectangular rib of 100 x 60 x 6 mm with edge thickness 6 mm on all
    edges, the straight profile, edge depth 10 mm and no bow yields a mesh
    whose volume statistic is exactly 36 cm3, whatever the remaining
    parameters are. *)
Theorem scenario_volume (p : RibParameters)
    (customCurvePoints : list Point) (smoothingFactor : R) :
  ribLength p = 100 -> width p = 60 -> thickness p = 6 ->
  shape p = Rectangular ->
  edgeThickness p = 6 -> edgeThicknessApply p = ApplyAll ->
  angleType p = Straight -> edgeDepth p = 10 -> longitudinalCurve p = 0 ->
  exists geometry,
    createRibGeometry p customCurvePoints smoothingFactor = Some geometry /\
    computedVolume geometry = Some 36.
Proof.
  intros HL HW Hth Hshape HeT Hmode Hangle HeD Hlc.
  destruct (flat_rib_volume 100 60 6 6 10 p 36 customCurvePoints smoothingFactor)
    as (geometry & Hgeometry & Hvolume);
    try (rewrite Q2R_number; assumption).
  - repeat split; assumption.
  - discriminate.
  - exact scenario_volumeQ.
  - exists geometry. split; [exact Hgeometry |].
    rewrite Hvolume, Q2R_number. reflexivity.
Qed.

Lemma scenario_volume_witness :
  exists geometry,
    createRibGeometry scenarioParameters [] 50 = Some geometry /\
    computedVolume geometry = Some 36.
Proof. apply (scenario_volume scenarioParameters [] 50); reflexivity. Defined.

(** C9 fails on the code: with the 12 mm edge of [thickEdgeParameters], the
    volume statistic is 46847/2400 cm3 (about 19.52) at thickness 3 mm and
    25573/1350 cm3 (about 18.94) at thickness 4 mm; both parameter objects are
    within the documented ranges. *)
Theorem thicker_rib_smaller_volume :
  validRibParameters (thickEdgeParameters 3) /\
  validRibParameters (thickEdgeParameters 4) /\
  exists g3 g4,
    createRibGeometry (thickEdgeParameters 3) [] 50 = Some g3 /\
    createRibGeometry (thickEdgeParameters 4) [] 50 = Some g4 /\
    computedVolume g3 = Some (46847 / 2400) /\
    computedVolume g4 = Some (25573 / 1350) /\
    25573 / 1350 < 46847 / 2400.
Proof.
  split; [| split].
  - unfold validRibParameters, thickEdgeParameters. cbn. lra.
  - unfold validRibParameters, thickEdgeParameters. cbn. lra.
  - destruct (flat_rib_volume 50 30 3 12 3 (thickEdgeParameters 3) (46847 # 2400) [] 50)
      as (g3 & Hg3 & Hv3);
      [repeat split; reflexivity | cbn; now rewrite Q2R_number .. | discriminate
      | exact thickEdge_volumeQ_3 |].
    destruct (flat_rib_volume 50 30 4 12 3 (thickEdgeParameters 4) (25573 # 1350) [] 50)
      as (g4 & Hg4 & Hv4);
      [repeat split; reflexivity | cbn; now rewrite Q2R_number .. | discriminate
      | exact thickEdge_volumeQ_4 |].
    exists g3, g4. split; [exact Hg3 |]. split; [exact Hg4 |].
    split; [exact Hv3 |]. split; [exact Hv4 |]. lra.
Qed.


(** * Further properties of the mesh engine *)

(** ** Mesh builder: buffer sizes and index bounds *)

Lemma flat_map_block_length {A B : Type} (f : A -> list B) (len : nat) (l : list A) :
  (forall a, length (f a) = len) -> length (flat_map f l) = (length l * len)%nat.
Proof.
  intros Hlen. induction l as [| a l IH]; [reflexivity |].
  cbn [flat_map length]. rewrite length_app, Hlen, IH. lia.
Qed.

Lemma vertexBuffer_length {A : Type} (xAt : nat -> A) (vertexDataAt : nat -> nat -> VertexData A) :
  N.of_nat (length (vertexBuffer xAt vertexDataAt)) = (vertexCount * 3)%N.
Proof.
  unfold vertexBuffer.
  rewrite (flat_map_block_length _ (6 * S widthSegments)).
  - rewrite length_seq. reflexivity.
  - intros i. now rewrite vertexNumbers_row_length, length_seq.
Qed.

(** The face loops push whole triangles that refer to existing vertices. *)
Lemma ribGrid_indices_check :
  match generateIndices ribGrid with
  | Some indices =>
      (N.of_nat (length indices) =? triangleCount * 3)%N
      && indicesBelow vertexCount indices
  | None => false
  end = true.
Proof. vm_compute. reflexivity. Qed.

(** What the size check gives for every generated mesh. *)
Lemma createRibGeometry_buffers (params : RibParameters)
    (customCurvePoints : list Point) (smoothingFactor : R) :
  exists idx,
    generateIndices ribGrid = Some idx /\
    N.of_nat (length idx) = (triangleCount * 3)%N /\
    indicesBelow vertexCount idx = true /\
    exists curve,
      createRibGeometry params customCurvePoints smoothingFactor
      = Some {| positions :=
                  vertexBuffer
                    (fun i => (INR i / INR segments - 0.5) * ribLength params)
                    (fun i j =>
                       calculateVertexPosition
                         ((INR i / INR segments - 0.5) * ribLength params)
                         (INR j / INR widthSegments) (INR i / INR segments)
                         params curve widthSegments
                         (sin (INR i / INR segments * PI) * thickness params
                          * (longitudinalCurve params / 100) * 3));
                indices := idx |}.
Proof.
  unfold createRibGeometry.
  destruct (smoothedCurve_Some params customCurvePoints smoothingFactor) as [curve ->].
  cbn [mbind option_bind].
  rewrite generateVertices_closed.
  pose proof ribGrid_indices_check as Hcheck.
  destruct (generateIndices ribGrid) as [idx |]; [| discriminate].
  apply andb_prop in Hcheck as [Hlen Hbelow]. apply N.eqb_eq in Hlen.
  exists idx. split; [reflexivity |]. split; [exact Hlen |]. split; [exact Hbelow |].
  exists curve. reflexivity.
Qed.


(** X1: whatever the parameters and the drawing, mesh generation succeeds
    with 5002 vertices (15006 position numbers) and 10000 triangles (30000
    indices), and every index refers to a vertex of the position buffer. *)
Theorem createRibGeometry_sizes (params : RibParameters)
    (customCurvePoints : list Point) (smoothingFactor : R) :
  exists geometry,
    createRibGeometry params customCurvePoints smoothingFactor = Some geometry /\
    N.of_nat (length (positions geometry)) = 15006%N /\
    N.of_nat (length (indices geometry)) = 30000%N /\
    Forall (fun k => (k * 3 + 2 < N.of_nat (length (positions geometry)))%N)
           (indices geometry).
Proof.
  destruct (createRibGeometry_buffers params customCurvePoints smoothingFactor)
    as (idx & _ & Hlen & Hbelow & curve & Hgeometry).
  eexists. split; [exact Hgeometry |]. cbn [positions indices].
  rewrite vertexBuffer_length. split; [reflexivity |]. split; [exact Hlen |].
  apply List.Forall_forall. intros k Hk.
  pose proof (proj1 (forallb_forall _ _) Hbelow k Hk) as Hlt. cbv beta in Hlt.
  apply N.ltb_lt in Hlt.
  change (vertexCount * 3)%N with 15006%N. change vertexCount with 5002%N in Hlt. lia.
Qed.

(** ** Volume statistic: always defined *)





(** ** Mesh builder: the windings agree *)

Lemma directed_edge_decide (x y u v : N) :
  bool_decide ((x, y) = (u, v)) = ((u =? x) && (v =? y))%N.
Proof.
  destruct (N.eqb_spec u x), (N.eqb_spec v y); cbn [andb];
    first [ apply bool_decide_eq_true; congruence
          | apply bool_decide_eq_false; intros [= ? ?]; congruence ].
Qed.

Lemma triDirected_count (tri : N * N * N) (u v : N) :
  properTriangle tri = true ->
  length (List.filter (fun e => bool_decide (e = (u, v))) (triDirected tri))
  = if hasDirectedEdge u v tri then 1%nat else 0%nat.
Proof.
  destruct tri as [[a b] c]. unfold properTriangle, triDirected, hasDirectedEdge.
  cbn [List.filter]. rewrite !directed_edge_decide.
  destruct (N.eqb_spec a b), (N.eqb_spec b c), (N.eqb_spec c a);
    cbn [negb andb]; try discriminate. intros _.
  destruct (N.eqb_spec u a), (N.eqb_spec u b), (N.eqb_spec u c),
    (N.eqb_spec v a), (N.eqb_spec v b), (N.eqb_spec v c);
    cbn [andb orb length]; first [reflexivity | congruence].
Qed.

Lemma traversing_count (tris : list (N * N * N)) (u v : N) :
  forallb properTriangle tris = true ->
  length (List.filter (fun e => bool_decide (e = (u, v))) (flat_map triDirected tris))
  = trianglesTraversing u v tris.
Proof.
  unfold trianglesTraversing.
  induction tris as [| tri tris IH]; cbn [flat_map forallb List.filter]; [reflexivity |].
  intros [Htri Hrest]%andb_prop.
  rewrite List.filter_app, length_app, triDirected_count, IH by assumption.
  destruct (hasDirectedEdge u v tri); reflexivity.
Qed.

Lemma orientedb_sound (idx : list N) :
  orientedb idx = true -> consistentlyOriented idx.
Proof.
  unfold orientedb. intros [Hproper Hcount]%andb_prop.
  intros a b c Hin u v Hside.
  assert (Hin' : In (u, v) (flat_map triDirected (triangles idx))).
  { apply in_flat_map. exists (a, b, c). split; [exact Hin | exact Hside]. }
  pose proof (proj1 (forallb_forall _ _) Hcount _ Hin') as H. cbv beta in H.
  cbn [fst snd] in H.
  rewrite !countEdges_lookup, !traversing_count in H by assumption.
  destruct (trianglesTraversing u v (triangles idx)) as [| [| n]];
    destruct (trianglesTraversing v u (triangles idx)) as [| [| m]];
    try discriminate. auto.
Qed.

Lemma ribGrid_orientedb :
  match generateIndices ribGrid with
  | Some idx => orientedb idx
  | None => false
  end = true.
Proof. vm_compute. reflexivity. Qed.

(** X3: the triangles of every generated mesh are wound consistently: each
    side of each triangle is run through exactly once in its own direction and
    exactly once in the opposite direction, so neighbouring triangles agree on
    which side is outside. *)
Theorem createRibGeometry_consistently_oriented (params : RibParameters)
    (customCurvePoints : list Point) (smoothingFactor : R) :
  exists geometry,
    createRibGeometry params customCurvePoints smoothingFactor = Some geometry /\
    consistentlyOriented (indices geometry).
Proof.
  destruct (createRibGeometry_buffers params customCurvePoints smoothingFactor)
    as (idx & Hidx & _ & _ & curve & Hgeometry).
  eexists. split; [exact Hgeometry |]. cbn [indices].
  pose proof ribGrid_orientedb as Hcheck. rewrite Hidx in Hcheck.
  now apply orientedb_sound.
Qed.

(** ** Shape modifier: sharper bounds *)

(** The width factor of a predefined shape lies between 0.1 and 1, or 1.2
    for the asymmetric teardrop. *)
Lemma shape_modifier_between (t s : R) (sh : Shape) :
  0 <= t <= 1 -> 0 <= s <= 1 ->
  0.1 <= getShapeModifier t s sh /\
  getShapeModifier t s sh <= (match sh with AsymmetricTeardrop => 1.2 | _ => 1 end).
Proof.
  intros Ht Hs. destruct sh; cbv [getShapeModifier]; try lra.
  - pose proof (ellipse_term_unit t Ht). lra.
  - pose proof (ellipse_term_unit t Ht). lra.
  - pose proof (Rabs_sin_unit (t * PI)) as Hsin.
    assert (Hd : 0 <= Rabs (s - 0.5) <= 0.5).
    { split; [apply Rabs_pos | apply Rabs_le; lra]. }
    assert (0 <= Rabs (sin (t * PI)) * Rabs (s - 0.5) <= 0.5) by nra.
    lra.
  - destruct (Rltb s 0.5); nra.
Qed.

(** X4: the shape modifier is at least 0.1 for every shape, and at most 1 for
    every shape but the asymmetric teardrop, where it is at most 1.2. *)
Theorem getShapeModifier_bounds (t s : R) (sh : Shape) :
  0 <= t <= 1 -> 0 <= s <= 1 ->
  0.1 <= getShapeModifier t s sh /\
  getShapeModifier t s sh <= (match sh with AsymmetricTeardrop => 1.2 | _ => 1 end).
Proof. exact (shape_modifier_between t s sh). Qed.

Lemma getShapeModifier_bounds_witness :
  0 <= 0.5 <= 1 /\ 0 <= 1 <= 1 /\
  0.1 <= getShapeModifier 0.5 1 Kidney /\ getShapeModifier 0.5 1 Kidney <= 1.
Proof.
  split; [lra |]. split; [lra |].
  apply (getShapeModifier_bounds 0.5 1 Kidney); lra.
Defined.

(** ** Mesh generation: where the vertices lie *)

Lemma grid_fraction_unit (k n : nat) :
  (k <= n)%nat -> (0 < n)%nat -> 0 <= INR k / INR n <= 1.
Proof.
  intros Hk Hn.
  assert (0 < INR n) by (apply lt_0_INR; exact Hn).
  assert (0 <= INR k) by apply pos_INR.
  assert (INR k <= INR n) by (apply le_INR; exact Hk).
  split.
  - apply Rmult_le_pos; [assumption |]. left. now apply Rinv_0_lt_compat.
  - apply Rmult_le_reg_r with (INR n); [assumption |]. unfold Rdiv.
    rewrite Rmult_assoc, Rinv_l; lra.
Qed.

(** The width factor drawn from a custom curve lies between 0.1 and 1. *)
Lemma curve_modifier_unit (s m : R) :
  0 <= s <= 1 -> 0.1 <= 1.0 * (1 - s) + Rmax 0.1 (Rmin 1 m) * s <= 1.
Proof.
  intros Hs.
  assert (Hc : 0.1 <= Rmax 0.1 (Rmin 1 m) <= 1).
  { split; [apply Rmax_l |]. apply Rmax_lub; [lra | apply Rmin_l]. }
  nra.
Qed.

(** The width factor of the solver, whichever way it is obtained. *)
Lemma solver_y_bound (p : RibParameters) (x s t : R)
    (smoothedCurve : option (list Point)) (ws : nat) (co : R) :
  0 <= width p -> 0 <= s <= 1 -> 0 <= t <= 1 ->
  - (0.6 * width p) <= vy (calculateVertexPosition x s t p smoothedCurve ws co)
  <= 0.6 * width p.
Proof.
  intros HW Hs Ht. unfold calculateVertexPosition. cbv zeta. cbn [vy].
  match goal with |- _ <= (s - 0.5) * width p * ?m <= _ =>
    assert (Hm : 0.1 <= m <= 1.2); [| set (sm := m) in *; clearbody sm]
  end.
  { destruct smoothedCurve as [curve |].
    - destruct (arrayAt curve _) as [point |]; [| lra].
      pose proof (curve_modifier_unit s (1 - Rabs (py point - 0.5) * 1.5) Hs). lra.
    - destruct (shape_modifier_between t s (shape p) Ht Hs) as [Hlo Hhi].
      split; [exact Hlo |]. destruct (shape p); lra. }
  assert (Hd : - 0.5 * width p <= (s - 0.5) * width p <= 0.5 * width p) by nra.
  split; nra.
Qed.

(** Vertex numbers count the grid points row by row, top before bottom. *)
Lemma vertex_number_decode (q : N) :
  (q < vertexCount)%N ->
  exists i j b,
    (i <= segments)%nat /\ (j <= widthSegments)%nat /\ (b <= 1)%nat /\
    N.to_nat q = (2 * (i * S widthSegments + j) + b)%nat.
Proof.
  intros Hq. change vertexCount with 5002%N in Hq.
  set (w := N.of_nat (S widthSegments)).
  exists (N.to_nat (q / 2 / w)), (N.to_nat ((q / 2) mod w)), (N.to_nat (q mod 2)).
  pose proof (N.div_mod q 2 ltac:(discriminate)) as H2.
  pose proof (N.div_mod (q / 2) w ltac:(discriminate)) as Hw.
  pose proof (N.mod_lt q 2 ltac:(discriminate)) as Hb.
  pose proof (N.mod_lt (q / 2) w ltac:(discriminate)) as Hj.
  assert (Hwv : w = 41%N) by reflexivity.
  clearbody w. subst w.
  unfold segments, widthSegments in *.
  generalize dependent (q mod 2)%N. generalize dependent ((q / 2) mod 41)%N.
  generalize dependent (q / 2 / 41)%N. generalize dependent (q / 2)%N.
  intros. repeat split; lia.
Qed.

(** X6: for parameters within the documented ranges, every vertex of the
    generated mesh lies within a thousandth of a millimetre of the nominal
    length, [-length/2 <= x <= length/2], and of 0.6 times the width on
    either side of the centre line; vertex [2n] (top) and vertex [2n + 1]
    (bottom) are read without error for every vertex number below 5002.  The
    thousandth is the margin for the rounding of the stored positions. *)
Theorem createRibGeometry_vertex_box (params : RibParameters)
    (customCurvePoints : list Point) (smoothingFactor : R) :
  validRibParameters params ->
  exists geometry,
    createRibGeometry params customCurvePoints smoothingFactor = Some geometry /\
    forall q, (q < 5002)%N ->
      exists x y z,
        positionAt (positions geometry) (q * 3) = Some x /\
        positionAt (positions geometry) (q * 3 + 1) = Some y /\
        positionAt (positions geometry) (q * 3 + 2) = Some z /\
        - (ribLength params / 2) - 0.001 <= x <= ribLength params / 2 + 0.001 /\
        - (0.6 * width params) - 0.001 <= y <= 0.6 * width params + 0.001.
Proof.
  intros (HL' & HW' & _).
  assert (HL : 0 <= ribLength params) by lra.
  assert (HW : 0 <= width params) by lra.
  destruct (createRibGeometry_buffers params customCurvePoints smoothingFactor)
    as (idx & _ & _ & _ & curve & Hgeometry).
  eexists. split; [exact Hgeometry |]. cbn [positions].
  intros q Hq.
  destruct (vertex_number_decode q Hq) as (i & j & b & Hi & Hj & Hb & Hdecode).
  unfold positionAt.
  replace (N.to_nat (q * 3)) with (6 * (i * S widthSegments + j) + 3 * b)%nat by lia.
  replace (N.to_nat (q * 3 + 1)) with (6 * (i * S widthSegments + j) + (3 * b + 1))%nat by lia.
  replace (N.to_nat (q * 3 + 2)) with (6 * (i * S widthSegments + j) + (3 * b + 2))%nat by lia.
  rewrite !vertexBuffer_nth by lia. unfold vertexNumbers. cbv beta zeta.
  pose proof (grid_fraction_unit i segments Hi ltac:(unfold segments; lia)) as Ht.
  pose proof (grid_fraction_unit j widthSegments Hj ltac:(unfold widthSegments; lia)) as Hs.
  assert (Hx : - (ribLength params / 2)
               <= (INR i / INR segments - 0.5) * ribLength params
               <= ribLength params / 2) by nra.
  match goal with |- context [calculateVertexPosition ?x ?s ?t params curve ?ws ?co] =>
    pose proof (solver_y_bound params x s t curve ws co HW Hs Ht) as Hy
  end.
  destruct b as [| [| b]]; [| | lia]; cbn [Nat.mul Nat.add nth_error];
    eexists _, _, _; (split; [reflexivity |]); (split; [reflexivity |]);
    (split; [reflexivity |]); split; lra.
Qed.

Lemma createRibGeometry_vertex_box_witness :
  validRibParameters perEdgeParameters /\
  exists geometry,
    createRibGeometry perEdgeParameters [] 50 = Some geometry /\
    exists x, positionAt (positions geometry) 0 = Some x /\
              - (ribLength perEdgeParameters / 2) - 0.001 <= x
              <= ribLength perEdgeParameters / 2 + 0.001.
Proof.
  assert (Hvalid : validRibParameters perEdgeParameters).
  { unfold validRibParameters, perEdgeParameters. cbn. lra. }
  split; [exact Hvalid |].
  destruct (createRibGeometry_vertex_box perEdgeParameters [] 50 Hvalid)
    as (geometry & Hgeometry & Hbox).
  exists geometry. split; [exact Hgeometry |].
  destruct (Hbox 0%N ltac:(reflexivity)) as (x & y & z & Hx & _ & _ & Hxr & _).
  exists x. split; [exact Hx | exact Hxr].
Defined.

(** ** Edge profile evaluator: blend factor *)

Lemma Rltb_true (a b : R) : Rltb a b = true <-> a < b.
Proof.
  unfold Rltb. destruct (Rlt_dec a b); split; intros; (reflexivity || lra || discriminate).
Qed.

Lemma Rltb_false (a b : R) : Rltb a b = false <-> b <= a.
Proof.
  unfold Rltb. destruct (Rlt_dec a b); split; intros; (reflexivity || lra || discriminate).
Qed.

(** X7: at blend factor 0 (the inner border of the edge band) no profile has
    any effect: the evaluator returns thickness / 2, for a thickness of at
    least 0.2. *)
Theorem applyEdgeAngle_no_blend (a : EdgeProfile) (angle th : R) :
  0.2 <= th -> applyEdgeAngle a angle th 0 = th / 2.
Proof.
  intros Hth. destruct a; cbv [applyEdgeAngle]; try reflexivity;
    try (rewrite Rmax_right by nra; nra).
  replace (0 * PI / 2) with 0 by lra. rewrite sin_0. lra.
Qed.

Lemma applyEdgeAngle_no_blend_witness :
  0.2 <= 6 /\ applyEdgeAngle Rounded 45 6 0 = 6 / 2.
Proof. split; [lra | apply applyEdgeAngle_no_blend; lra]. Defined.

(** A tangent cut shrinks as the blend factor grows. *)
Lemma tangent_cut_decreasing (k th e1 e2 : R) :
  0 <= k -> 0 <= th -> e1 <= e2 ->
  Rmax 0.1 (th / 2 - k * (th * e2 * 0.5)) <= Rmax 0.1 (th / 2 - k * (th * e1 * 0.5)).
Proof.
  intros Hk Hth He.
  assert (k * (th * e1 * 0.5) <= k * (th * e2 * 0.5)).
  { apply Rmult_le_compat_l; [exact Hk | nra]. }
  apply Rmax_lub.
  - apply Rmax_l.
  - eapply Rle_trans; [| apply Rmax_r]. lra.
Qed.

(** X8: the closer to the edge, the thinner: for a thickness that is not
    negative and a custom angle of at least 0 and below 90 degrees, the
    evaluator does not increase when the blend factor grows within [0, 1]. *)
Theorem applyEdgeAngle_decreasing (a : EdgeProfile) (angle th e1 e2 : R) :
  0 <= th -> 0 <= e1 -> e1 <= e2 -> e2 <= 1 ->
  (a = CustomAngle -> 0 <= angle < 90) ->
  applyEdgeAngle a angle th e2 <= applyEdgeAngle a angle th e1.
Proof.
  intros Hth H1 H12 H2 Hangle. destruct a; cbv [applyEdgeAngle]; try lra.
  - apply Rmax_lub; [apply Rmax_l |].
    eapply Rle_trans; [| apply Rmax_r]. nra.
  - apply tangent_cut_decreasing; auto. apply tan_degrees_nonneg. lra.
  - apply tangent_cut_decreasing; auto. apply tan_degrees_nonneg. lra.
  - pose proof PI_RGT_0 as Hpi.
    assert (sin (e1 * PI / 2) <= sin (e2 * PI / 2)).
    { apply sin_incr_1; nra. }
    nra.
  - apply tangent_cut_decreasing; auto. apply tan_degrees_nonneg. auto.
Qed.

Lemma applyEdgeAngle_decreasing_witness :
  0 <= 6 /\ 0 <= 0.25 /\ 0.25 <= 0.75 /\ 0.75 <= 1 /\ 0 <= 60 < 90 /\
  applyEdgeAngle CustomAngle 60 6 0.75 <= applyEdgeAngle CustomAngle 60 6 0.25.
Proof.
  repeat (split; [lra |]).
  apply applyEdgeAngle_decreasing; lra.
Defined.


(** ** Vertex solver: the cross-section *)

Lemma blend_between (u v e lo hi : R) :
  lo <= u <= hi -> lo <= v <= hi -> 0 <= e <= 1 -> lo <= u * (1 - e) + v * e <= hi.
Proof. intros. split; nra. Qed.

(** The shape of every solver output: a current thickness [ct] between the
    thicknesses in play, a bottom at [- ct / 2] under the bow, and a top that
    blends the profile offset with [ct / 2] by a factor [e] in [0, 1]. *)
Lemma solver_cross_section (p : RibParameters) (x s t : R)
    (smoothedCurve : option (list Point)) (ws : nat) (co lo hi : R) :
  0 <= ribLength p -> 0 <= width p -> 0 < edgeDepth p ->
  0 <= s <= 1 -> 0 <= t <= 1 ->
  lo <= thickness p <= hi -> lo <= edgeThickness p <= hi ->
  (edgeThicknessApply p = ApplyAsymmetric ->
     lo <= edgeTop p <= hi /\ lo <= edgeBottom p <= hi /\
     lo <= edgeLeft p <= hi /\ lo <= edgeRight p <= hi) ->
  exists ct e a,
    lo <= ct <= hi /\ 0 <= e <= 1 /\
    vbottomZ (calculateVertexPosition x s t p smoothedCurve ws co) = - ct / 2 - co /\
    vtopZ (calculateVertexPosition x s t p smoothedCurve ws co)
    = (applyEdgeAngle a (customAngle p) ct e + co) * e + (ct / 2 + co) * (1 - e).
Proof.
  intros HL HW HeD Hs Ht Hth HeT Hasym.
  unfold calculateVertexPosition. cbv zeta. cbn [vtopZ vbottomZ].
  match goal with |- context [Rabs ?sm] => set (aw := width p * Rabs sm) end.
  assert (Haw : 0 <= aw).
  { unfold aw. apply Rmult_le_pos; [lra | apply Rabs_pos]. }
  clearbody aw.
  set (m := Math_min4 (aw * (1 - s)) (aw * s) (ribLength p * t) (ribLength p * (1 - t))).
  assert (Hm : 0 <= m).
  { apply Math_min4_nonneg; apply Rmult_le_pos; lra. }
  clearbody m.
  set (tgt := match edgeThicknessApply p with
              | ApplyAsymmetric => _
              | _ => edgeThickness p
              end).
  assert (Htgt : lo <= tgt <= hi).
  { unfold tgt. destruct (edgeThicknessApply p); try lra.
    destruct Hasym as (? & ? & ? & ?); [reflexivity |].
    repeat match goal with |- context [if ?c then _ else _] => destruct c end; lra. }
  clearbody tgt.
  set (ct := if Rleb m (edgeDepth p) then _ else thickness p).
  assert (Hct : lo <= ct <= hi).
  { unfold ct. destruct (Rleb m (edgeDepth p)) eqn:E; [| lra].
    apply Rleb_true in E.
    match goal with |- context [if ?c then _ else _] => destruct c end; [| lra].
    pose proof (progress_unit m (edgeDepth p) Hm HeD E).
    apply blend_between; lra. }
  clearbody ct.
  destruct (Rleb m (edgeDepth p)) eqn:E.
  - apply Rleb_true in E.
    pose proof (progress_unit m (edgeDepth p) Hm HeD E) as Hep.
    match goal with |- context [if ?c then _ else _] => destruct c end.
    + match goal with |- context [applyEdgeAngle ?a ?ang ct ?e] =>
        exists ct, e, a end.
      repeat split; try lra.
    + exists ct, 0, Straight. repeat split; try lra.
  - exists ct, 0, Straight. repeat split; try lra.
Qed.

(** Above the floor the evaluator never exceeds the half thickness. *)
Lemma applyEdgeAngle_le_half (a : EdgeProfile) (angle th e : R) :
  0.2 <= th -> 0 <= e <= 1 -> 0 <= angle < 90 ->
  0 < applyEdgeAngle a angle th e <= th / 2.
Proof.
  intros Hth He Hangle. split; [apply applyEdgeAngle_pos; lra |].
  destruct a; cbv [applyEdgeAngle]; try lra.
  - apply Rmax_lub; nra.
  - apply tangent_cut_range; auto. apply tan_degrees_nonneg. lra.
  - apply tangent_cut_range; auto. apply tan_degrees_nonneg. lra.
  - pose proof (sin_blend_unit e He). nra.
  - apply tangent_cut_range; auto. apply tan_degrees_nonneg. auto.
Qed.

(** X10: a profile only ever cuts into the top surface.  For parameters
    within the documented ranges with edge thicknesses of at least 0.2, a
    custom angle of at least 0 and below 90 degrees and the bow of the length
    fraction, the top of every point of the unit square is at most the mirror
    image of its bottom, and the rib is nowhere thicker than 12 mm plus twice
    the bow, both to within 1e-9 mm, the margin for rounding. *)
Theorem calculateVertexPosition_profile_cuts (p : RibParameters) (x s t : R)
    (smoothedCurve : option (list Point)) (ws : nat) :
  validRibParameters p ->
  0.2 <= edgeThickness p ->
  (edgeThicknessApply p = ApplyAsymmetric ->
     0.2 <= edgeTop p <= 12 /\ 0.2 <= edgeBottom p <= 12 /\
     0.2 <= edgeLeft p <= 12 /\ 0.2 <= edgeRight p <= 12) ->
  0 <= customAngle p < 90 ->
  0 <= s <= 1 -> 0 <= t <= 1 ->
  vtopZ (calculateVertexPosition x s t p smoothedCurve ws (bowOffset p t))
  <= - vbottomZ (calculateVertexPosition x s t p smoothedCurve ws (bowOffset p t)) + 1e-9 /\
  vtopZ (calculateVertexPosition x s t p smoothedCurve ws (bowOffset p t))
  - vbottomZ (calculateVertexPosition x s t p smoothedCurve ws (bowOffset p t))
  <= 12 + 2 * bowOffset p t + 1e-9.
Proof.
  intros (HL & HW & Hth & HeT & HeD & Hlc) HeT' Hasym Hangle Hs Ht.
  set (co := bowOffset p t).
  destruct (solver_cross_section p x s t smoothedCurve ws co 0.2 12)
    as (ct & e & a & Hct & He & -> & ->); try lra; [exact Hasym |].
  pose proof (applyEdgeAngle_le_half a (customAngle p) ct e ltac:(lra) He Hangle) as Hv.
  set (v := applyEdgeAngle a (customAngle p) ct e) in *. clearbody v co.
  split; nra.
Qed.

Lemma calculateVertexPosition_profile_cuts_witness :
  validRibParameters uniformEdgeParameters /\
  vtopZ (calculateVertexPosition 0 0.5 0.05 uniformEdgeParameters None widthSegments
           (bowOffset uniformEdgeParameters 0.05))
  <= - vbottomZ (calculateVertexPosition 0 0.5 0.05 uniformEdgeParameters None widthSegments
                   (bowOffset uniformEdgeParameters 0.05)) + 1e-9.
Proof.
  assert (Hvalid : validRibParameters uniformEdgeParameters).
  { unfold validRibParameters, uniformEdgeParameters. cbn. lra. }
  split; [exact Hvalid |].
  apply (calculateVertexPosition_profile_cuts uniformEdgeParameters 0 0.5 0.05 None
           widthSegments Hvalid); cbn; lra.
Defined.

(** X11: the edge profile settings never move the bottom surface or the
    outline: two parameter objects that differ only in [angleType], the
    per-edge profiles, [customAngle] and [applyAllEdges] give the same [y] and
    the same [bottomZ] at every point. *)
Theorem calculateVertexPosition_profile_top_only (p q : RibParameters) (x s t : R)
    (smoothedCurve : option (list Point)) (ws : nat) (co : R) :
  sameBody p q ->
  vy (calculateVertexPosition x s t p smoothedCurve ws co)
  = vy (calculateVertexPosition x s t q smoothedCurve ws co) /\
  vbottomZ (calculateVertexPosition x s t p smoothedCurve ws co)
  = vbottomZ (calculateVertexPosition x s t q smoothedCurve ws co).
Proof.
  intros (HL & HW & Hth & HeT & Hmode & Htop & Hbot & Hleft & Hright & Hshape & HeD & _).
  unfold calculateVertexPosition. cbv zeta. cbn [vy vbottomZ].
  rewrite HL, HW, Hth, HeT, Hmode, Htop, Hbot, Hleft, Hright, Hshape, HeD.
  split; reflexivity.
Qed.

Lemma calculateVertexPosition_profile_top_only_witness :
  sameBody scenarioParameters (withApplyAllEdges true scenarioParameters) /\
  vbottomZ (calculateVertexPosition 0 0.25 0.5 scenarioParameters None widthSegments 0)
  = vbottomZ (calculateVertexPosition 0 0.25 0.5
                (withApplyAllEdges true scenarioParameters) None widthSegments 0).
Proof.
  assert (H : sameBody scenarioParameters (withApplyAllEdges true scenarioParameters)).
  { repeat split. }
  split; [exact H |].
  apply (calculateVertexPosition_profile_top_only _ _ 0 0.25 0.5 None widthSegments 0 H).
Defined.

(** X12: with the straight profile the cross-section is symmetric.  For
    parameters within the documented ranges, per-edge thicknesses between 0
    and 12, and the bow of the length fraction, the top of every point of the
    unit square is the mirror image of its bottom to within 1e-9 mm, the
    margin for rounding, whatever the shape and the curve are. *)
Theorem calculateVertexPosition_straight_symmetric (p : RibParameters) (x s t : R)
    (smoothedCurve : option (list Point)) (ws : nat) :
  angleType p = Straight ->
  validRibParameters p ->
  (edgeThicknessApply p = ApplyAsymmetric ->
     0 <= edgeTop p <= 12 /\ 0 <= edgeBottom p <= 12 /\
     0 <= edgeLeft p <= 12 /\ 0 <= edgeRight p <= 12) ->
  0 <= s <= 1 -> 0 <= t <= 1 ->
  Rabs (vtopZ (calculateVertexPosition x s t p smoothedCurve ws (bowOffset p t))
        + vbottomZ (calculateVertexPosition x s t p smoothedCurve ws (bowOffset p t)))
  <= 1e-9.
Proof.
  intros Hangle _ _ _ _.
  match goal with |- Rabs ?d <= _ => replace d with 0 end.
  - rewrite Rabs_R0. lra.
  - unfold calculateVertexPosition. cbv zeta. cbn [vtopZ vbottomZ].
    rewrite Hangle. cbn [applyEdgeAngle].
    repeat match goal with |- context [if ?c then _ else _] => destruct c end; lra.
Qed.

Lemma calculateVertexPosition_straight_symmetric_witness :
  angleType (thickEdgeParameters 3) = Straight /\
  validRibParameters (thickEdgeParameters 3) /\
  Rabs (vtopZ (calculateVertexPosition 0 0.5 0.02 (thickEdgeParameters 3) None widthSegments
                 (bowOffset (thickEdgeParameters 3) 0.02))
        + vbottomZ (calculateVertexPosition 0 0.5 0.02 (thickEdgeParameters 3) None
                      widthSegments (bowOffset (thickEdgeParameters 3) 0.02)))
  <= 1e-9.
Proof.
  assert (Hvalid : validRibParameters (thickEdgeParameters 3)).
  { unfold validRibParameters, thickEdgeParameters. cbn. lra. }
  split; [reflexivity |]. split; [exact Hvalid |].
  apply (calculateVertexPosition_straight_symmetric (thickEdgeParameters 3) 0 0.5 0.02 None
           widthSegments eq_refl Hvalid); try lra.
  intros H. discriminate H.
Defined.

(** ** Vertex solver: the edge band *)

Lemma Math_min4_gt (a b c d z : R) :
  z < a -> z < b -> z < c -> z < d -> z < Math_min4 a b c d.
Proof. intros. unfold Math_min4. repeat apply Rmin_glb_lt; assumption. Qed.

Lemma Math_min4_le_each (a b c d : R) :
  Math_min4 a b c d <= a /\ Math_min4 a b c d <= b /\
  Math_min4 a b c d <= c /\ Math_min4 a b c d <= d.
Proof.
  unfold Math_min4.
  pose proof (Rmin_l (Rmin (Rmin a b) c) d). pose proof (Rmin_r (Rmin (Rmin a b) c) d).
  pose proof (Rmin_l (Rmin a b) c). pose proof (Rmin_r (Rmin a b) c).
  pose proof (Rmin_l a b). pose proof (Rmin_r a b).
  repeat split; lra.
Qed.

(** X13: away from every edge by more than the edge depth, neither the edge
    thickness nor the profile applies: the rib has its nominal thickness,
    [thickness / 2] above and below the bow. *)
Theorem calculateVertexPosition_inside_band (p : RibParameters) (x s t : R)
    (ws : nat) (co : R) :
  let actualWidth := width p * Rabs (getShapeModifier t s (shape p)) in
  edgeDepth p < actualWidth * (1 - s) -> edgeDepth p < actualWidth * s ->
  edgeDepth p < ribLength p * t -> edgeDepth p < ribLength p * (1 - t) ->
  vtopZ (calculateVertexPosition x s t p None ws co) = thickness p / 2 + co /\
  vbottomZ (calculateVertexPosition x s t p None ws co) = - thickness p / 2 - co.
Proof.
  intros aw H1 H2 H3 H4. subst aw.
  unfold calculateVertexPosition. cbv zeta. cbn [vtopZ vbottomZ].
  pose proof (Math_min4_gt _ _ _ _ _ H1 H2 H3 H4) as Hm.
  apply Rleb_false in Hm. rewrite Hm. split; reflexivity.
Qed.

Lemma calculateVertexPosition_inside_band_witness :
  vtopZ (calculateVertexPosition 0 0.5 0.5 scenarioParameters None widthSegments 0)
  = thickness scenarioParameters / 2 + 0.
Proof.
  apply (calculateVertexPosition_inside_band scenarioParameters 0 0.5 0.5 widthSegments 0);
    cbn [scenarioParameters width shape ribLength edgeDepth getShapeModifier];
    rewrite ?Rabs_R1; lra.
Defined.

(** X14: on the outline of the grid ([s] or [t] equal to 0 or 1), with the
    edge thickness applied to all edges, the rib has exactly the edge
    thickness below the bow, and the profile is applied in full (blend factor
    1) above it. *)
Theorem calculateVertexPosition_rim (p : RibParameters) (x s t : R)
    (smoothedCurve : option (list Point)) (ws : nat) (co : R) :
  0 <= ribLength p -> 0 <= width p -> 0 < edgeDepth p ->
  0 <= s <= 1 -> 0 <= t <= 1 ->
  s = 0 \/ s = 1 \/ t = 0 \/ t = 1 ->
  edgeThicknessApply p = ApplyAll -> angleType p <> AsymmetricProfile ->
  vbottomZ (calculateVertexPosition x s t p smoothedCurve ws co)
  = - edgeThickness p / 2 - co /\
  vtopZ (calculateVertexPosition x s t p smoothedCurve ws co)
  = applyEdgeAngle (angleType p) (customAngle p) (edgeThickness p) 1 + co.
Proof.
  intros HL HW HeD Hs Ht Hrim Hmode Hangle.
  unfold calculateVertexPosition. cbv zeta. cbn [vtopZ vbottomZ].
  match goal with |- context [Rabs ?sm] => set (aw := width p * Rabs sm) end.
  assert (Haw : 0 <= aw).
  { unfold aw. apply Rmult_le_pos; [lra | apply Rabs_pos]. }
  clearbody aw.
  assert (Hm : Math_min4 (aw * (1 - s)) (aw * s) (ribLength p * t) (ribLength p * (1 - t)) = 0).
  { apply Rle_antisym.
    - destruct (Math_min4_le_each (aw * (1 - s)) (aw * s) (ribLength p * t)
                  (ribLength p * (1 - t))) as (H1 & H2 & H3 & H4).
      destruct Hrim as [-> | [-> | [-> | ->]]]; nra.
    - apply Math_min4_nonneg; apply Rmult_le_pos; lra. }
  rewrite Hmode.
  assert (Hnear : Rleb (Math_min4 (aw * (1 - s)) (aw * s) (ribLength p * t)
                          (ribLength p * (1 - t))) (edgeDepth p) = true).
  { rewrite Hm. apply Rleb_true. lra. }
  rewrite (shouldApplyAngle_near _ _ _ _ _ _ _ _ Hnear). rewrite Hnear, Hm.
  replace (0 / edgeDepth p) with 0 by (unfold Rdiv; ring).
  replace (edgeThickness p * (1 - 0) + thickness p * 0) with (edgeThickness p) by ring.
  replace (1 - 0) with 1 by ring.
  assert (Hprofile : match angleType p with
                     | AsymmetricProfile =>
                         if Reqb (aw * (1 - s)) 0 then angleTop p
                         else if Reqb (aw * s) 0 then angleBottom p
                         else if Reqb (ribLength p * t) 0 then angleLeft p
                         else if Reqb (ribLength p * (1 - t)) 0 then angleRight p
                         else AsymmetricProfile
                     | a => a
                     end = angleType p).
  { destruct (angleType p); congruence. }
  rewrite Hprofile. split; ring.
Qed.

Lemma calculateVertexPosition_rim_witness :
  vbottomZ (calculateVertexPosition 0 1 0.5 (thickEdgeParameters 3) None widthSegments 0)
  = - edgeThickness (thickEdgeParameters 3) / 2 - 0.
Proof.
  apply (calculateVertexPosition_rim (thickEdgeParameters 3) 0 1 0.5 None widthSegments 0);
    cbn; try lra; auto; discriminate.
Defined.

(** ** Parameter validation and the solver *)

(** The shapes whose width factor is 1 at the centre of the rib. *)
Lemma centre_modifier (sh : Shape) :
  In sh [Rectangular; Oval; Circle; Kidney; Custom] ->
  getShapeModifier 0.5 0.5 sh = 1.
Proof.
  assert (Hsq : sqrt (Rmax 0 (1 - (2 * 0.5 - 1) ^ 2)) = 1).
  { replace (1 - (2 * 0.5 - 1) ^ 2) with 1 by lra.
    rewrite Rmax_right by lra. apply sqrt_1. }
  intros [<- | [<- | [<- | [<- | [<- | []]]]]]; cbv [getShapeModifier];
    rewrite ?Hsq; try lra.
  replace (0.5 - 0.5) with 0 by lra. rewrite Rabs_R0. lra.
Qed.

(** X15: the depth warning of [validateParameters] is raised exactly when the
    edge band swallows the centre of the rib.  For a rectangular, oval, circle
    or kidney rib, or a custom rib without a drawing, with the edge thickness,
    different from the thickness, applied to all edges: no depth warning if
    and only if the centre point [(s, t) = (0.5, 0.5)] still has the nominal
    thickness below the bow. *)
Theorem depthWarning_centre (p : RibParameters) (x : R) (ws : nat) (co : R) :
  0 <= ribLength p -> 0 <= width p -> 0 < edgeDepth p ->
  In (shape p) [Rectangular; Oval; Circle; Kidney; Custom] ->
  edgeThicknessApply p = ApplyAll -> edgeThickness p <> thickness p ->
  depthWarning (validateParameters p) = false <->
  vbottomZ (calculateVertexPosition x 0.5 0.5 p None ws co) = - thickness p / 2 - co.
Proof.
  intros HL HW HeD Hshape Hmode Hne.
  unfold calculateVertexPosition, validateParameters. cbv zeta. cbn [vbottomZ depthWarning].
  rewrite (centre_modifier _ Hshape), Rabs_R1, Rmult_1_r, Hmode.
  set (m := Math_min4 _ _ _ _).
  assert (Hm : m = Rmin (width p / 2) (ribLength p / 2)).
  { unfold m, Math_min4.
    replace (width p * (1 - 0.5)) with (width p / 2) by lra.
    replace (width p * 0.5) with (width p / 2) by lra.
    replace (ribLength p * (1 - 0.5)) with (ribLength p / 2) by lra.
    replace (ribLength p * 0.5) with (ribLength p / 2) by lra.
    rewrite (Rmin_left (width p / 2) (width p / 2)) by lra.
    destruct (Rmin_cases (width p / 2) (ribLength p / 2)) as [[E H] | [E H]];
      rewrite E; rewrite Rmin_left; lra. }
  clearbody m.
  assert (Hm0 : 0 <= m).
  { rewrite Hm. apply Rmin_glb; lra. }
  split.
  - intros Hwarn. apply orb_false_elim in Hwarn as [H1 H2].
    apply Rltb_false in H1. apply Rltb_false in H2.
    assert (Hge : edgeDepth p <= m) by (rewrite Hm; apply Rmin_glb; assumption).
    destruct (Rleb m (edgeDepth p)) eqn:E; [| reflexivity].
    apply Rleb_true in E. assert (Heq : m = edgeDepth p) by lra. rewrite Heq.
    replace (edgeDepth p / edgeDepth p) with 1 by (field; apply Rgt_not_eq; lra). lra.
  - intros Hz.
    destruct (Rleb m (edgeDepth p)) eqn:E.
    + apply Rleb_true in E.
      pose proof (progress_unit m (edgeDepth p) Hm0 HeD E) as Hep.
      assert (Hone : m / edgeDepth p = 1).
      { set (e := m / edgeDepth p) in *.
        assert ((edgeThickness p - thickness p) * (1 - e) = 0) by lra.
        destruct (Rmult_integral _ _ H); lra. }
      assert (m = edgeDepth p).
      { apply (f_equal (fun r => r * edgeDepth p)) in Hone.
        unfold Rdiv in Hone. rewrite Rmult_assoc, Rinv_l, Rmult_1_r, Rmult_1_l in Hone; lra. }
      apply orb_false_intro; apply Rltb_false;
        [pose proof (Rmin_l (width p / 2) (ribLength p / 2))
        | pose proof (Rmin_r (width p / 2) (ribLength p / 2))]; lra.
    + apply Rleb_false in E.
      apply orb_false_intro; apply Rltb_false;
        [pose proof (Rmin_l (width p / 2) (ribLength p / 2))
        | pose proof (Rmin_r (width p / 2) (ribLength p / 2))]; lra.
Qed.

Lemma depthWarning_centre_witness :
  depthWarning (validateParameters (thickEdgeParameters 3)) = false <->
  vbottomZ (calculateVertexPosition 0 0.5 0.5 (thickEdgeParameters 3) None widthSegments 0)
  = - thickness (thickEdgeParameters 3) / 2 - 0.
Proof.
  apply (depthWarning_centre (thickEdgeParameters 3) 0 widthSegments 0);
    cbn [thickEdgeParameters ribLength width edgeDepth shape edgeThicknessApply
         edgeThickness thickness In]; try lra; auto.
Defined.

(** ** Curve smoother: the sort *)

Lemma insertByX_Permutation (p : Point) (l : list Point) :
  Permutation (insertByX p l) (p :: l).
Proof.
  induction l as [| q l IH]; cbn [insertByX]; [reflexivity |].
  destruct (Rleb (px p) (px q)); [reflexivity |].
  rewrite IH. apply perm_swap.
Qed.

Lemma sortByX_Permutation (l : list Point) : Permutation (sortByX l) l.
Proof.
  induction l as [| p l IH]; [reflexivity |].
  change (sortByX (p :: l)) with (insertByX p (sortByX l)).
  rewrite insertByX_Permutation. now apply perm_skip.
Qed.

Lemma insertByX_sorted (p : Point) (l : list Point) :
  sortedByX l -> sortedByX (insertByX p l).
Proof.
  unfold sortedByX. induction l as [| q l IH]; intros Hl; cbn [insertByX].
  - repeat constructor.
  - apply StronglySorted_inv in Hl as [Hl Hq].
    destruct (Rleb (px p) (px q)) eqn:E.
    + apply Rleb_true in E. constructor; [constructor; assumption |].
      constructor; [exact E |].
      eapply List.Forall_impl; [| exact Hq]. cbv beta. intros r Hr. lra.
    + apply Rleb_false in E. constructor; [now apply IH |].
      eapply Permutation_Forall; [symmetry; apply insertByX_Permutation |].
      constructor; [lra | exact Hq].
Qed.

(** Inserting a point leaves the points of any other [x] as they were, and
    puts the point in front of those of its own [x]. *)
Lemma insertByX_filter (c : R) (p : Point) (l : list Point) :
  sortedByX l ->
  List.filter (fun q => Reqb (px q) c) (insertByX p l)
  = (if Reqb (px p) c then [p] else []) ++ List.filter (fun q => Reqb (px q) c) l.
Proof.
  unfold sortedByX. induction l as [| q l IH]; intros Hl; cbn [insertByX List.filter].
  - destruct (Reqb (px p) c); reflexivity.
  - apply StronglySorted_inv in Hl as [Hl Hq].
    destruct (Rleb (px p) (px q)) eqn:E; cbn [List.filter].
    + destruct (Reqb (px p) c); reflexivity.
    + apply Rleb_false in E. rewrite (IH Hl).
      destruct (Reqb (px p) c) eqn:Ep, (Reqb (px q) c) eqn:Eq; try reflexivity.
      apply Reqb_true in Ep. apply Reqb_true in Eq. lra.
Qed.

Lemma sortByX_sorted (l : list Point) : sortedByX (sortByX l).
Proof.
  induction l as [| p l IH]; [constructor |].
  change (sortByX (p :: l)) with (insertByX p (sortByX l)).
  now apply insertByX_sorted.
Qed.

(** X16: the sort of the smoother is a stable sort by [x]: its result holds
    the same points as the input, in ascending order of [x], and points of
    equal [x] keep the order they were drawn in. *)
Theorem sortByX_stable_sort (points : list Point) :
  Permutation (sortByX points) points /\
  sortedByX (sortByX points) /\
  forall c, List.filter (fun q => Reqb (px q) c) (sortByX points)
            = List.filter (fun q => Reqb (px q) c) points.
Proof.
  split; [apply sortByX_Permutation |]. split; [apply sortByX_sorted |].
  intros c. induction points as [| p l IH]; [reflexivity |].
  change (sortByX (p :: l)) with (insertByX p (sortByX l)).
  rewrite insertByX_filter by apply sortByX_sorted. rewrite IH.
  cbn [List.filter]. destruct (Reqb (px p) c); reflexivity.
Qed.

(** Two lists in ascending order of [x] that hold the same points, no two of
    them with the same [x], are the same list. *)
Lemma sortedByX_unique (l l' : list Point) :
  sortedByX l -> sortedByX l' -> Permutation l l' -> List.NoDup (map px l) -> l = l'.
Proof.
  unfold sortedByX. revert l'. induction l as [| a l IH]; intros l' Hl Hl' Hp Hnd.
  - apply Permutation_nil in Hp. now subst.
  - destruct l' as [| b l2]; [apply Permutation_sym, Permutation_nil in Hp; discriminate |].
    apply StronglySorted_inv in Hl as [Hl Ha].
    apply StronglySorted_inv in Hl' as [Hl2 Hb].
    rewrite List.Forall_forall in Ha, Hb.
    cbn [map] in Hnd. apply List.NoDup_cons_iff in Hnd as [Hnin Hnd].
    assert (Hab : a = b).
    { assert (Hin_a : In a (b :: l2)).
      { eapply Permutation_in; [exact Hp | now left]. }
      assert (Hin_b : In b (a :: l)).
      { eapply Permutation_in; [symmetry; exact Hp | now left]. }
      destruct Hin_a as [-> | Hin_a]; [reflexivity |].
      destruct Hin_b as [-> | Hin_b]; [reflexivity |].
      exfalso. apply Hnin.
      assert (E : px a = px b).
      { pose proof (Ha _ Hin_b). pose proof (Hb _ Hin_a). lra. }
      rewrite E. now apply in_map. }
    subst b. f_equal. apply IH; try assumption.
    eapply Permutation_cons_inv, Hp.
Qed.

(** X17: when no two drawn points have the same [x], the smoothed curve of
    three or more points does not depend on the order in which they were
    drawn. *)
Theorem smoothCurvePoints_order_independent
    (points points' : list Point) (smoothingFactor : R) :
  (3 <= length points)%nat ->
  List.NoDup (map px points) ->
  Permutation points points' ->
  smoothCurvePoints points smoothingFactor = smoothCurvePoints points' smoothingFactor.
Proof.
  intros Hlen Hnd Hp. unfold smoothCurvePoints.
  rewrite <- (Permutation_length Hp).
  destruct (length points <? 3)%nat eqn:E; [apply Nat.ltb_lt in E; lia |].
  replace (sortByX points') with (sortByX points); [reflexivity |].
  apply sortedByX_unique; try apply sortByX_sorted.
  - rewrite !sortByX_Permutation. exact Hp.
  - eapply Permutation_NoDup; [| exact Hnd].
    apply Permutation_map. symmetry. apply sortByX_Permutation.
Qed.

Lemma smoothCurvePoints_order_independent_witness :
  smoothCurvePoints [ {| px := 1; py := 0 |}; {| px := 0; py := 1 |}; {| px := 2; py := 1 |} ] 50
  = smoothCurvePoints [ {| px := 0; py := 1 |}; {| px := 2; py := 1 |}; {| px := 1; py := 0 |} ] 50.
Proof.
  apply smoothCurvePoints_order_independent.
  - cbn [length]. lia.
  - cbn [map px]. repeat constructor; cbn [In]; intros H;
      repeat (destruct H as [H | H]; [lra |]); exact H.
  - apply Permutation_cons_app with (l1 := [ {| px := 0; py := 1 |}; {| px := 2; py := 1 |} ])
                                     (l2 := []).
    reflexivity.
Defined.

(** ** Curve smoother: the samples *)

Lemma Math_floor_IZR (z : Z) : Math_floor (IZR z) = z.
Proof.
  unfold Math_floor. destruct (base_Int_part (IZR z)) as [Hle Hgt].
  apply le_IZR in Hle.
  assert (H : (z - 1 < Int_part (IZR z))%Z).
  { apply lt_IZR. rewrite minus_IZR. lra. }
  lia.
Qed.

(** A turn of the resampling loop that falls on a control point, or runs
    with tension [0], yields the clamped height of the control point at
    [index]. *)
Lemma smoothSample_control (sorted : list Point) (tension : R) (i : nat) :
  (1 <= length sorted)%nat -> (i < 100)%nat ->
  let u := INR i / 99 * (IZR (Z.of_nat (length sorted)) - 1) in
  exists q,
    arrayAt sorted (Math_floor u) = Some q /\
    (tension = 0 \/ u = IZR (Math_floor u) ->
     smoothSample sorted tension i = Some {| px := INR i / 99; py := clampUnit (py q) |}).
Proof.
  intros Hlen Hi u. unfold smoothSample.
  pose proof (sample_parameter_unit i Hi) as Ht.
  replace (INR 100 - 1) with 99 in * by (simpl; lra).
  set (t := INR i / 99) in *.
  set (len := Z.of_nat (length sorted)) in *.
  assert (Hlen' : (1 <= len)%Z) by (unfold len; lia).
  assert (HlenR : 0 <= IZR len - 1).
  { apply IZR_le in Hlen'. lra. }
  assert (Hidx : (0 <= Math_floor (t * (IZR len - 1)) <= len - 1)%Z).
  { apply Math_floor_bounds. rewrite minus_IZR. split; nra. }
  fold u in Hidx |- *.
  set (index := Math_floor u) in *.
  destruct (arrayAt_Some sorted (Z.max 0 (index - 1))) as [p0 ->]; [fold len; lia |].
  destruct (arrayAt_Some sorted index) as [p1 ->]; [fold len; lia |].
  destruct (arrayAt_Some sorted (Z.min (index + 1) (len - 1))) as [p2 ->]; [fold len; lia |].
  destruct (arrayAt_Some sorted (Z.min (len - 1) (Z.min (index + 1) (len - 1) + 1)))
    as [p3 ->]; [fold len; lia |].
  exists p1. split; [reflexivity |]. intros H. cbn [mbind option_bind].
  do 2 f_equal. unfold clampUnit. do 2 f_equal.
  destruct H as [-> | E].
  - lra.
  - replace (u - IZR index) with 0 by lra. lra.
Qed.

(** What a finished loop stored at place [i] is the result of its turn [i]. *)
Lemma mapM_nth_error {A B : Type} (f : A -> option B) (l : list A) (out : list B) :
  mapM f l = Some out ->
  forall i x, nth_error l i = Some x ->
    exists y, f x = Some y /\ nth_error out i = Some y.
Proof.
  revert out. induction l as [| a l IH]; intros out H i x Hx.
  - destruct i; discriminate.
  - cbn [mapM] in H. destruct (f a) as [b |] eqn:Ea; [| discriminate].
    cbn [mbind option_bind] in H.
    destruct (mapM f l) as [k |] eqn:Ek; [| discriminate].
    cbn in H. injection H as <-.
    destruct i as [| i]; cbn [nth_error] in *.
    + injection Hx as <-. eauto.
    + eapply IH; eauto.
Qed.

Lemma smoothCurvePoints_nth (points out : list Point) (smoothingFactor : R) (i : nat) :
  (3 <= length points)%nat -> (i < 100)%nat ->
  smoothCurvePoints points smoothingFactor = Some out ->
  exists y, smoothSample (sortByX points) (smoothingFactor / 100) i = Some y /\
            nth_error out i = Some y.
Proof.
  intros Hlen Hi. unfold smoothCurvePoints.
  destruct (length points <? 3)%nat eqn:E; [apply Nat.ltb_lt in E; lia |].
  intros H. eapply mapM_nth_error; [exact H |].
  rewrite nth_error_seq. destruct (i <? 100)%nat eqn:Ei; [reflexivity |].
  apply Nat.ltb_ge in Ei. lia.
Qed.

Lemma sortedByX_nth_error (l : list Point) :
  sortedByX l ->
  forall i j a b, (i <= j)%nat ->
    nth_error l i = Some a -> nth_error l j = Some b -> px a <= px b.
Proof.
  unfold sortedByX. induction l as [| c l IH]; intros Hl i j a b Hij Ha Hb.
  - destruct i; discriminate.
  - apply StronglySorted_inv in Hl as [Hl Hc].
    destruct i as [| i], j as [| j]; cbn [nth_error] in *.
    + injection Ha as <-. injection Hb as <-. lra.
    + injection Ha as <-. rewrite List.Forall_forall in Hc.
      apply Hc. eapply nth_error_In, Hb.
    + lia.
    + eapply (IH Hl i j); [lia | eassumption ..].
Qed.

(** X18: whatever the smoothing, the smoothed curve of three or more points
    starts at the height of a leftmost drawn point and ends at the height of
    a rightmost one, both clamped to the unit interval. *)
Theorem smoothCurvePoints_end_points (points : list Point) (smoothingFactor : R) :
  (3 <= length points)%nat ->
  exists out a b,
    smoothCurvePoints points smoothingFactor = Some out /\
    In a points /\ In b points /\
    (forall q, In q points -> px a <= px q <= px b) /\
    nth_error out 0 = Some {| px := 0; py := clampUnit (py a) |} /\
    nth_error out 99 = Some {| px := 1; py := clampUnit (py b) |}.
Proof.
  intros Hlen.
  destruct (smoothCurvePoints_Some points smoothingFactor) as [out Hout].
  pose proof (sortByX_length points) as Hsl.
  pose proof (sortByX_sorted points) as Hsorted.
  pose proof (sortByX_Permutation points) as Hperm.
  set (len := Z.of_nat (length (sortByX points))).
  assert (Hlen' : (3 <= len)%Z) by (unfold len; lia).
  destruct (smoothCurvePoints_nth points out smoothingFactor 0 Hlen ltac:(lia) Hout)
    as (y0 & Hs0 & Hn0).
  destruct (smoothCurvePoints_nth points out smoothingFactor 99 Hlen ltac:(lia) Hout)
    as (y1 & Hs1 & Hn1).
  destruct (smoothSample_control (sortByX points) (smoothingFactor / 100) 0)
    as (a & Ha & Hsa); [lia | lia |].
  destruct (smoothSample_control (sortByX points) (smoothingFactor / 100) 99)
    as (b & Hb & Hsb); [lia | lia |].
  fold len in Ha, Hsa, Hb, Hsb.
  replace (INR 0 / 99 * (IZR len - 1)) with (IZR 0) in Ha, Hsa
    by (cbn [INR]; lra).
  replace (INR 99 / 99 * (IZR len - 1)) with (IZR (len - 1)) in Hb, Hsb
    by (rewrite minus_IZR; replace (INR 99) with 99 by (simpl; lra); lra).
  rewrite Math_floor_IZR in Ha, Hsa, Hb, Hsb.
  rewrite Hsa in Hs0 by now right. rewrite Hsb in Hs1 by now right.
  injection Hs0 as <-. injection Hs1 as <-.
  unfold arrayAt in Ha, Hb.
  destruct (0 <? 0)%Z eqn:E0; [discriminate |].
  destruct (len - 1 <? 0)%Z eqn:E1; [apply Z.ltb_lt in E1; lia |].
  exists out, a, b. split; [exact Hout |]. split; [| split; [| split; [| split]]].
  - eapply Permutation_in; [exact Hperm |]. eapply nth_error_In, Ha.
  - eapply Permutation_in; [exact Hperm |]. eapply nth_error_In, Hb.
  - intros q Hq.
    apply (Permutation_in _ (Permutation_sym Hperm)) in Hq.
    apply In_nth_error in Hq as [k Hk].
    assert (Hk' : (k < length (sortByX points))%nat).
    { apply nth_error_Some. rewrite Hk. discriminate. }
    split.
    + eapply (sortedByX_nth_error _ Hsorted (Z.to_nat 0) k); [lia | eassumption ..].
    + eapply (sortedByX_nth_error _ Hsorted k (Z.to_nat (len - 1))); [lia | eassumption ..].
  - rewrite Hn0. do 2 f_equal. cbn [INR]. lra.
  - rewrite Hn1. do 2 f_equal. replace (INR 99) with 99 by (simpl; lra). lra.
Qed.

Lemma smoothCurvePoints_end_points_witness :
  exists out a b,
    smoothCurvePoints
      [ {| px := 1; py := 0 |}; {| px := 0; py := 1 |}; {| px := 2; py := 1 |} ] 50 = Some out /\
    nth_error out 0 = Some {| px := 0; py := clampUnit (py a) |} /\
    nth_error out 99 = Some {| px := 1; py := clampUnit (py b) |}.
Proof.
  destruct (smoothCurvePoints_end_points
              [ {| px := 1; py := 0 |}; {| px := 0; py := 1 |}; {| px := 2; py := 1 |} ] 50)
    as (out & a & b & Hout & _ & _ & _ & H0 & H1).
  - cbn [length]. lia.
  - exists out, a, b. auto.
Defined.



(** ** Volume statistic of a box

    A flat rib whose edge is as thick as its body is a box.  Its position
    buffer is the buffer of the unit box with each coordinate scaled, the
    volume loop scales with it, and the unit box is evaluated in [Q]. *)

Section ScaledBox.
Variables a b c : R.
Variables (xAtR : nat -> R) (vdR : nat -> nat -> VertexData R).
Hypothesis Hx : forall i, xAtR i = a * Q2R (Rational.xAt 1 i).
Hypothesis Hvd : forall i j,
  vdR i j = {| vy := b * Q2R (vy (Rational.vertexDataAt 1 1 1 1 1 i j));
               vtopZ := c * Q2R (vtopZ (Rational.vertexDataAt 1 1 1 1 1 i j));
               vbottomZ := c * Q2R (vbottomZ (Rational.vertexDataAt 1 1 1 1 1 i j)) |}.
Hypothesis Hpos : 0 <= a * b * c.

Lemma scaled_positionAt (q : N) (x y z : Q) :
  Rational.vertexAt (Rational.vertexRows 1 1 1 1 1) q = Some (x, y, z) ->
  positionAt (vertexBuffer xAtR vdR) (q * 3) = Some (a * Q2R x) /\
  positionAt (vertexBuffer xAtR vdR) (q * 3 + 1) = Some (b * Q2R y) /\
  positionAt (vertexBuffer xAtR vdR) (q * 3 + 2) = Some (c * Q2R z).
Proof.
  unfold Rational.vertexAt, Rational.vertexRows. cbv zeta.
  set (w := N.of_nat (S widthSegments)).
  destruct (nth_error _ (N.to_nat (q / 2 / w))) as [row |] eqn:Erow; [| discriminate].
  apply nth_error_map_seq in Erow as [Hi ->].
  destruct (nth_error _ (N.to_nat ((q / 2) mod w))) as [[x0 d] |] eqn:Ecell; [| discriminate].
  apply nth_error_map_seq in Ecell as [Hj [= -> ->]].
  intros [= <- <- <-].
  set (i := N.to_nat (q / 2 / w)) in *. set (j := N.to_nat ((q / 2) mod w)) in *.
  assert (Hq : N.to_nat q = (2 * (i * S widthSegments + j) + N.to_nat (q mod 2))%nat).
  { subst i j. pose proof (N.div_mod q 2 ltac:(discriminate)) as H2.
    pose proof (N.div_mod (q / 2) w ltac:(discriminate)) as Hw.
    assert (Hw' : N.to_nat w = S widthSegments) by (subst w; apply Nat2N.id).
    rewrite <- Hw'. lia. }
  unfold positionAt.
  assert (Hbit : (q mod 2 = 0 /\ N.even q = true \/ q mod 2 = 1 /\ N.even q = false)%N).
  { rewrite <- N.bit0_mod, N.bit0_odd, <- N.negb_even. destruct (N.even q); cbn; auto. }
  destruct Hbit as [[Hbit ->] | [Hbit ->]]; rewrite Hbit in Hq; cbn [N.to_nat] in Hq.
  - replace (N.to_nat (q * 3)) with (6 * (i * S widthSegments + j) + 0)%nat by lia.
    replace (N.to_nat (q * 3 + 1)) with (6 * (i * S widthSegments + j) + 1)%nat by lia.
    replace (N.to_nat (q * 3 + 2)) with (6 * (i * S widthSegments + j) + 2)%nat by lia.
    rewrite !vertexBuffer_nth by (assumption || lia).
    unfold vertexNumbers. rewrite Hx, Hvd. cbn. auto.
  - replace (N.to_nat (q * 3)) with (6 * (i * S widthSegments + j) + 3)%nat by lia.
    replace (N.to_nat (q * 3 + 1)) with (6 * (i * S widthSegments + j) + 4)%nat by lia.
    replace (N.to_nat (q * 3 + 2)) with (6 * (i * S widthSegments + j) + 5)%nat by lia.
    rewrite !vertexBuffer_nth by (assumption || lia).
    unfold vertexNumbers. rewrite Hx, Hvd. cbn. auto.
Qed.

Lemma volumeLoop_scaled :
  forall (idx : list N) (acc v : Q),
    Rational.volumeLoop (Rational.vertexRows 1 1 1 1 1) idx acc = Some v ->
    volumeLoop (vertexBuffer xAtR vdR) idx (a * b * c * Q2R acc)
    = Some (a * b * c * Q2R v).
Proof.
  induction idx as [| i1 | i1 i2 | i1 i2 i3 rest IH] using triple_induction;
    intros acc v H; cbn [Rational.volumeLoop] in H; try discriminate.
  - injection H as ->. reflexivity.
  - destruct (Rational.vertexAt _ i1) as [[[x1 y1] z1] |] eqn:E1; [| discriminate].
    destruct (Rational.vertexAt _ i2) as [[[x2 y2] z2] |] eqn:E2; [| discriminate].
    destruct (Rational.vertexAt _ i3) as [[[x3 y3] z3] |] eqn:E3; [| discriminate].
    apply scaled_positionAt in E1 as (E10 & E11 & E12).
    apply scaled_positionAt in E2 as (E20 & E21 & E22).
    apply scaled_positionAt in E3 as (E30 & E31 & E32).
    cbn [volumeLoop]. cbv zeta.
    rewrite E10, E11, E12, E20, E21, E22, E30, E31, E32. cbn [mbind option_bind].
    rewrite <- (IH _ _ H). f_equal.
    rewrite Q2R_Qred, Q2R_plus, Q2R_div, Q2R_Qabs by discriminate.
    rewrite !Q2R_plus, !Q2R_mult, !Q2R_minus, !Q2R_mult.
    rewrite Q2R_number.
    match goal with |- _ + Rabs ?d1 / _ = _ * (_ + Rabs ?d / _) =>
      replace d1 with (a * b * c * d) by ring end.
    rewrite Rabs_mult, (Rabs_right (a * b * c)) by lra. field.
Qed.
End ScaledBox.

Lemma unit_currentThickness (i j : nat) :
  Q2R (Rational.currentThickness 1 1 1 1 1 i j) = 1.
Proof.
  unfold Rational.currentThickness. cbv zeta.
  destruct (Qle_bool _ 1).
  - rewrite Q2R_plus, !Q2R_mult, Q2R_minus, !Q2R_div, RMicromega.Q2R_1 by discriminate.
    field.
  - apply RMicromega.Q2R_1.
Qed.

Lemma unit_box_volumeQ :
  Rational.volumeOf (Rational.vertexRows 1 1 1 1 1) (generateIndices ribGrid)
  = Some (1 # 1000)%Q.
Proof. vm_cast_no_check (eq_refl (Some (1 # 1000)%Q)). Qed.

(** In exact arithmetic the volume statistic of a box is length x width x
    thickness, in cm3. *)
Lemma box_volume_exact (p : RibParameters)
    (customCurvePoints : list Point) (smoothingFactor : R) :
  flatRib p ->
  edgeThickness p = thickness p ->
  0 < ribLength p -> 0 < width p -> 0 < thickness p -> edgeDepth p <> 0 ->
  exists geometry,
    createRibGeometry p customCurvePoints smoothingFactor = Some geometry /\
    computedVolume geometry = Some (ribLength p * width p * thickness p / 1000).
Proof.
  intros Hflat HeT HL HW Hth HeD.
  pose proof unit_box_volumeQ as Hunit.
  apply volumeOf_inv in Hunit as (idx & volume & Hidx & Hvol & Hv).
  assert (Hvolume : Rabs (Q2R volume) = 1).
  { apply (f_equal Q2R) in Hv.
    rewrite Q2R_Qred, Q2R_div, Q2R_Qabs, Q2R_number in Hv by discriminate.
    unfold Q2R in Hv at 1. cbn [Qnum Qden] in Hv. lra. }
  unfold createRibGeometry.
  destruct Hflat as (Hshape & Hflat'). rewrite Hshape.
  cbn [Shape_eqb andb mbind option_bind].
  pose proof (conj Hshape Hflat') as Hflat. destruct Hflat' as (_ & _ & Hlc).
  rewrite generateVertices_closed, Hidx. cbn [mbind option_bind].
  eexists. split; [reflexivity |].
  unfold computedVolume. cbn [positions indices].
  replace 0 with (ribLength p * width p * thickness p * Q2R 0)
    by (rewrite RMicromega.Q2R_0; ring).
  rewrite (volumeLoop_scaled (ribLength p) (width p) (thickness p)) with (v := volume).
  - cbn [mbind option_bind].
    rewrite Rabs_mult, Hvolume, Rabs_right, Rmult_1_r; [reflexivity |].
    apply Rle_ge. repeat apply Rmult_le_pos; lra.
  - intros i. unfold Rational.xAt.
    rewrite Q2R_Qred, Q2R_mult, Q2R_minus, tAt_Q2R, Q2R_half, RMicromega.Q2R_1. ring.
  - intros i j.
    rewrite (calculateVertexPosition_flat p) by
      (try exact Hflat; rewrite Hlc; unfold Rdiv; ring).
    cbv zeta. unfold Rational.vertexDataAt. cbn [vy vtopZ vbottomZ].
    rewrite !Q2R_Qred, Q2R_mult, Q2R_minus, sAt_Q2R, Q2R_half, RMicromega.Q2R_1.
    rewrite !Q2R_div, Q2R_opp, unit_currentThickness, Q2R_number by discriminate.
    rewrite HeT.
    match goal with |- context [Rleb ?m ?d] => destruct (Rleb m d) end;
      f_equal; unfold Rdiv; ring.
  - repeat apply Rmult_le_pos; lra.
  - exact Hvol.
Qed.

(** X20: a flat rib whose edge is as thick as its body is a box.  For
    parameters within the documented ranges its volume statistic is length x
    width x thickness, in cm3, to within one part in a million, the margin
    for the rounding of the stored positions and of the sum. *)
Theorem createRibGeometry_box_volume (p : RibParameters)
    (customCurvePoints : list Point) (smoothingFactor : R) :
  flatRib p ->
  edgeThickness p = thickness p ->
  validRibParameters p ->
  exists geometry volume,
    createRibGeometry p customCurvePoints smoothingFactor = Some geometry /\
    computedVolume geometry = Some volume /\
    Rabs (volume - ribLength p * width p * thickness p / 1000)
    <= 1e-6 * (ribLength p * width p * thickness p / 1000).
Proof.
  intros Hflat HeT (HL & HW & Hth & _ & HeD & _).
  destruct (box_volume_exact p customCurvePoints smoothingFactor Hflat HeT)
    as (geometry & Hgeometry & Hvolume); try lra.
  exists geometry, (ribLength p * width p * thickness p / 1000).
  split; [exact Hgeometry |]. split; [exact Hvolume |].
  match goal with |- Rabs ?d <= _ => replace d with 0 by ring end.
  rewrite Rabs_R0.
  assert (0 <= ribLength p * width p * thickness p).
  { repeat apply Rmult_le_pos; lra. }
  lra.
Qed.

Lemma createRibGeometry_box_volume_witness :
  validRibParameters (thickEdgeParameters 12) /\
  exists geometry volume,
    createRibGeometry (thickEdgeParameters 12) [] 50 = Some geometry /\
    computedVolume geometry = Some volume /\
    Rabs (volume - 50 * 30 * 12 / 1000) <= 1e-6 * (50 * 30 * 12 / 1000).
Proof.
  assert (Hvalid : validRibParameters (thickEdgeParameters 12)).
  { unfold validRibParameters, thickEdgeParameters. cbn. lra. }
  split; [exact Hvalid |].
  apply (createRibGeometry_box_volume (thickEdgeParameters 12) [] 50).
  - repeat split; reflexivity.
  - reflexivity.
  - exact Hvalid.
Defined.

(** ** Per-edge settings that are the same on every edge *)

(** The choice by nearest edge is the common value when the four edges
    have the same one: one of the four distances is the minimum. *)
Lemma nearest_edge_choice {A : Type} (dt db dl dr : R) (e other : A) :
  (if Reqb dt (Math_min4 dt db dl dr) then e
   else if Reqb db (Math_min4 dt db dl dr) then e
   else if Reqb dl (Math_min4 dt db dl dr) then e
   else if Reqb dr (Math_min4 dt db dl dr) then e
   else other) = e.
Proof.
  destruct (Math_min4_attained dt db dl dr) as [H | [H | [H | H]]];
    cbv zeta in H; rewrite H;
    repeat match goal with
           | |- context [Reqb ?x ?x] => rewrite (Reqb_refl x)
           | |- context [if Reqb ?x ?y then _ else _] => destruct (Reqb x y)
           end; reflexivity.
Qed.

(** X21: in per-edge profile mode with the same profile on all four edges,
    the solver returns what it returns with that profile as the profile of
    the rib. *)
Theorem calculateVertexPosition_uniform_profiles (p : RibParameters) (e : EdgeProfile)
    (x s t : R) (smoothedCurve : option (list Point)) (ws : nat) (co : R) :
  angleType p = AsymmetricProfile ->
  angleTop p = e -> angleBottom p = e -> angleLeft p = e -> angleRight p = e ->
  calculateVertexPosition x s t p smoothedCurve ws co
  = calculateVertexPosition x s t (withAngleType e p) smoothedCurve ws co.
Proof.
  intros Hmode Htop Hbottom Hleft Hright.
  unfold calculateVertexPosition. cbv zeta.
  cbn [withAngleType ribLength width thickness edgeThickness edgeThicknessApply
       edgeTop edgeBottom edgeLeft edgeRight shape angleType
       angleTop angleBottom angleLeft angleRight customAngle edgeDepth
       applyAllEdges longitudinalCurve].
  rewrite Hmode, Htop, Hbottom, Hleft, Hright.
  rewrite !nearest_edge_choice.
  destruct e; reflexivity.
Qed.

Lemma calculateVertexPosition_uniform_profiles_witness :
  calculateVertexPosition 0 0.5 0.5 uniformEdgeParameters None widthSegments 0
  = calculateVertexPosition 0 0.5 0.5 (withAngleType Rounded uniformEdgeParameters)
      None widthSegments 0.
Proof.
  apply calculateVertexPosition_uniform_profiles; reflexivity.
Defined.

(** X22: in per-edge thickness mode with the same thickness on all four
    edges, the solver returns what it returns with that edge thickness
    applied to all edges. *)
Theorem calculateVertexPosition_uniform_thicknesses (p : RibParameters) (eT : R)
    (x s t : R) (smoothedCurve : option (list Point)) (ws : nat) (co : R) :
  edgeThicknessApply p = ApplyAsymmetric ->
  edgeTop p = eT -> edgeBottom p = eT -> edgeLeft p = eT -> edgeRight p = eT ->
  calculateVertexPosition x s t p smoothedCurve ws co
  = calculateVertexPosition x s t (withEdgeThickness eT p) smoothedCurve ws co.
Proof.
  intros Hmode Htop Hbottom Hleft Hright.
  unfold calculateVertexPosition. cbv zeta.
  cbn [withEdgeThickness ribLength width thickness edgeThickness edgeThicknessApply
       edgeTop edgeBottom edgeLeft edgeRight shape angleType
       angleTop angleBottom angleLeft angleRight customAngle edgeDepth
       applyAllEdges longitudinalCurve].
  rewrite Hmode, Htop, Hbottom, Hleft, Hright.
  rewrite !nearest_edge_choice.
  reflexivity.
Qed.

Lemma calculateVertexPosition_uniform_thicknesses_witness :
  calculateVertexPosition 0 0.5 0.5 uniformEdgeParameters None widthSegments 0
  = calculateVertexPosition 0 0.5 0.5 (withEdgeThickness 2 uniformEdgeParameters)
      None widthSegments 0.
Proof.
  apply calculateVertexPosition_uniform_thicknesses; reflexivity.
Defined.

(** ** Drawing canvas *)

(** While the button is down every move adds its point. *)
Lemma run_mousemoves (points : list Point) :
  forall st, Drawing.isDrawing st = true ->
    Drawing.run (map Drawing.MouseMove points) st
    = {| Drawing.isDrawing := true;
         Drawing.drawingHistory := Drawing.drawingHistory st;
         Drawing.customCurvePoints := Drawing.customCurvePoints st ++ points |}.
Proof.
  unfold Drawing.run.
  induction points as [| q points IH]; intros st Hst; cbn [map fold_left].
  - rewrite app_nil_r. destruct st. cbn in *. now subst.
  - cbn [Drawing.handle]. unfold Drawing.mousemove. rewrite Hst. cbn [negb].
    rewrite IH by reflexivity.
    cbn [Drawing.customCurvePoints Drawing.drawingHistory Drawing.isDrawing].
    now rewrite <- app_assoc.
Qed.

(** X23: undo after a stroke restores the points from before the stroke when
    there were any; after a stroke on an empty canvas it does nothing, and
    the whole stroke stays. *)
Theorem undoDrawing_after_stroke (st : Drawing.State) (point : Point) (points : list Point) :
  Drawing.customCurvePoints
    (Drawing.undoDrawing (Drawing.run (Drawing.stroke point points) st))
  = if (0 <? length (Drawing.customCurvePoints st))%nat
    then Drawing.customCurvePoints st
    else point :: points.
Proof.
  unfold Drawing.stroke, Drawing.run.
  cbn [fold_left Drawing.handle]. rewrite fold_left_app.
  fold (Drawing.run (map Drawing.MouseMove points) (Drawing.mousedown point st)).
  rewrite run_mousemoves by reflexivity.
  cbn [fold_left Drawing.handle Drawing.mouseup Drawing.mousedown
       Drawing.customCurvePoints Drawing.drawingHistory Drawing.isDrawing].
  unfold Drawing.undoDrawing.
  cbn [Drawing.customCurvePoints Drawing.drawingHistory Drawing.isDrawing].
  destruct (Drawing.customCurvePoints st) as [| q l] eqn:E; cbn; reflexivity.
Qed.

(** X24: whatever happens to the canvas, the undo history is an initial part
    of the drawn points: an undo can only take away the points drawn last. *)
Theorem drawingHistory_prefix (events : list Drawing.Event) :
  exists rest,
    Drawing.customCurvePoints (Drawing.run events Drawing.initial)
    = Drawing.drawingHistory (Drawing.run events Drawing.initial) ++ rest.
Proof.
  unfold Drawing.run.
  assert (H : exists rest,
             Drawing.customCurvePoints Drawing.initial
             = Drawing.drawingHistory Drawing.initial ++ rest) by (exists []; reflexivity).
  revert H. generalize Drawing.initial.
  induction events as [| ev events IH]; intros st Hst; [exact Hst |].
  cbn [fold_left]. apply IH. destruct Hst as [rest Hrest].
  destruct ev as [q | q | | |]; cbn [Drawing.handle].
  - exists [q]. reflexivity.
  - unfold Drawing.mousemove. destruct (Drawing.isDrawing st); cbn [negb].
    + exists (rest ++ [q]). cbn. now rewrite Hrest, <- app_assoc.
    + exists rest. exact Hrest.
  - exists rest. exact Hrest.
  - exists []. reflexivity.
  - unfold Drawing.undoDrawing. destruct (0 <? _)%nat.
    + exists []. cbn. now rewrite app_nil_r.
    + exists rest. exact Hrest.
Qed.
